(** * Scat31: the rules engine of the card game "31" (Scat)

    A shallow embedding of [shared/src/game.ts] (hand values, the seeded
    deck, dealing, the turn/action state machine, showdown scoring and the
    per-viewer projection) and of the CPU policy of the server's game room,
    followed by the properties established about them.

    Conventions of the embedding.
    - A JavaScript [number] that only ever holds an integer (lives, counters,
      the seed, rank values) is a [Z]; array indices are [nat]; a hand value,
      which may be the fractional [threeOfKindValue], is a [Q].
    - [null] and [undefined] are [None]; the truthiness test the source
      applies to an optional string is [truthy].
    - Arrays are lists in array order, so the top of a pile is the last
      element; [state.players[i]] is the list lookup [players !! i].
    - The engine mutates its [GameState] in place; the embedding threads the
      state explicitly, and a call that returns a rejection still returns the
      state as the call left it. *)

From Stdlib Require Import ZArith QArith Qminmax Qround Lia Permutation.
From stdpp Require Import base list strings pretty.

Local Open Scope string_scope.
Local Open Scope list_scope.
Local Open Scope Z_scope.

(** ** Data model *)

Inductive Suit := SuitS | SuitH | SuitD | SuitC.

Inductive Rank :=
  | RA | RK | RQ | RJ | R10 | R9 | R8 | R7 | R6 | R5 | R4 | R3 | R2.

Record Card := mkCard { suit : Suit; rank : Rank; card_id : string }.

Inductive PlayerType := HUMAN | CPU.

(** The per-turn stage the engine attaches to the acting player. *)
Inductive TurnStage := START | DREW.

Record Player := mkPlayer {
  p_id : string;
  p_name : string;
  p_type : PlayerType;
  hand : list Card;
  lives : Z;
  eliminated : bool;
  (* server-only fields added through [p as any] *)
  turnStage : option TurnStage;
  drawnCardId : option string;
  tookDiscardId : option string
}.

Inductive Phase := PLAYING | KNOCKED | SHOWDOWN | HAND_OVER | GAME_OVER.

Record Rules := mkRules {
  startingLives : Z;
  allowKnockAnyScore : bool;
  knockMinScore : option Q;
  threeOfKindValue : option Q
}.

(** One constructor per message template pushed on [lastActionLog]; the
    arguments are the values interpolated in the template. *)
Inductive LogLine :=
  | LogReshuffled
  | LogDealt31 (winners : list string)
  | LogKnocks (name : string)
  | LogDrawsStock (name : string)
  | LogTakesDiscard (name : string)
  | LogDeclares31 (name : string)
  | LogDiscards (name : string)
  | LogShowdown (scores : list (string * Q))
  | LogKnockerSoleLowest (name : string)
  | LogTiesWithKnocker (name : string)
  | LogIsLowest (name : string)
  | LogText (text : string).

Record GameState := mkState {
  roomId : string;
  rules : Rules;
  players : list Player;
  dealerIndex : nat;
  turnIndex : nat;
  phase : Phase;
  knockedBy : option string;
  finalTurnsLeft : Z;
  stock : list Card;
  discard : list Card;
  lastActionLog : list LogLine;
  winnerId : option string;
  seed : Z
}.

Inductive Action :=
  | DRAW_STOCK
  | DRAW_DISCARD
  | DISCARD (cardId : string)
  | KNOCK.

(** The result of [applyAction]: [{ ok: true }] or [{ ok: false, error }]. *)
Inductive Result := Ok | Rejected (error : string).

(** ** Small helpers for the JavaScript idioms of the source *)

#[global] Instance Suit_eq_dec : EqDecision Suit.
Proof. solve_decision. Defined.

#[global] Instance Rank_eq_dec : EqDecision Rank.
Proof. solve_decision. Defined.

Definition suit_eqb (a b : Suit) : bool :=
  match a, b with
  | SuitS, SuitS | SuitH, SuitH | SuitD, SuitD | SuitC, SuitC => true
  | _, _ => false
  end.

Definition rank_index (r : Rank) : nat :=
  match r with
  | RA => 0 | RK => 1 | RQ => 2 | RJ => 3 | R10 => 4 | R9 => 5 | R8 => 6
  | R7 => 7 | R6 => 8 | R5 => 9 | R4 => 10 | R3 => 11 | R2 => 12
  end%nat.

Definition rank_eqb (a b : Rank) : bool := Nat.eqb (rank_index a) (rank_index b).

Definition phase_eqb (a b : Phase) : bool :=
  match a, b with
  | PLAYING, PLAYING | KNOCKED, KNOCKED | SHOWDOWN, SHOWDOWN
  | HAND_OVER, HAND_OVER | GAME_OVER, GAME_OVER => true
  | _, _ => false
  end.

(** [if (x)] on a [string | null]: null and the empty string are falsy. *)
Definition truthy (o : option string) : bool :=
  match o with
  | Some s => negb (String.eqb s "")
  | None => false
  end.

(** [arr.pop()]: the last element and the rest, [None] on an empty array. *)
Fixpoint pop {A} (l : list A) : option (A * list A) :=
  match l with
  | [] => None
  | x :: l' =>
      match pop l' with
      | None => Some (x, [])
      | Some (y, r) => Some (y, x :: r)
      end
  end.

(** [arr.findIndex(f)], with [None] for -1. *)
Fixpoint findIndex {A} (f : A -> bool) (l : list A) : option nat :=
  match l with
  | [] => None
  | x :: l' => if f x then Some 0%nat else S <$> findIndex f l'
  end.

(** [arr.find(f)] followed by an in-place update of the object found. *)
Fixpoint alterFirst {A} (f : A -> bool) (g : A -> A) (l : list A) : list A :=
  match l with
  | [] => []
  | x :: l' => if f x then g x :: l' else x :: alterFirst f g l'
  end.

(** ** Hand values *)

Definition rankValue (r : Rank) : Z :=
  match r with
  | RA => 11
  | RK | RQ | RJ => 10
  | R10 => 10 | R9 => 9 | R8 => 8 | R7 => 7 | R6 => 6
  | R5 => 5 | R4 => 4 | R3 => 3 | R2 => 2
  end.

(** The accumulator [{ S: 0, H: 0, D: 0, C: 0 }] of [handValue]. *)
Record SuitSums := mkSums { sumS : Z; sumH : Z; sumD : Z; sumC : Z }.

Definition addToSuit (acc : SuitSums) (c : Card) : SuitSums :=
  let v := rankValue (rank c) in
  match suit c with
  | SuitS => mkSums (sumS acc + v) (sumH acc) (sumD acc) (sumC acc)
  | SuitH => mkSums (sumS acc) (sumH acc + v) (sumD acc) (sumC acc)
  | SuitD => mkSums (sumS acc) (sumH acc) (sumD acc + v) (sumC acc)
  | SuitC => mkSums (sumS acc) (sumH acc) (sumD acc) (sumC acc + v)
  end.

Definition sumsBySuit (hand : list Card) : SuitSums :=
  fold_left addToSuit hand (mkSums 0 0 0 0).

(** [Math.max(...xs)] on a non-empty list of integers. *)
Definition maxOf (x : Z) (xs : list Z) : Z := fold_left Z.max xs x.

Definition bestSuitSum (hand : list Card) : Z :=
  let s := sumsBySuit hand in
  maxOf (sumS s) [sumH s; sumD s; sumC s].

Definition handValue (hand : list Card) (rules : Rules) : Q :=
  match hand with
  | [a; b; c] =>
      let natural :=
        inject_Z (Z.max (bestSuitSum hand)
                        (maxOf (rankValue (rank a))
                               [rankValue (rank b); rankValue (rank c)])) in
      match threeOfKindValue rules with
      | Some v =>
          if rank_eqb (rank a) (rank b) && rank_eqb (rank b) (rank c)
          then v else natural
      | None => natural
      end
  | _ => 0%Q
  end.

Definition hasExact31 (hand : list Card) (rules : Rules) : bool :=
  Qeq_bool (handValue hand rules) 31.

(** ** Deterministic RNG and the deck *)

Definition two32 : Z := 2 ^ 32.

(** One step of [makeRng]: [s = (1664525 * s + 1013904223) >>> 0]. The
    product stays below 2^53, so the double arithmetic is exact. *)
Definition lcgNext (s : Z) : Z := (1664525 * s + 1013904223) mod two32.

(** [[arr[i], arr[j]] = [arr[j], arr[i]]]. *)
Definition swap {A} (arr : list A) (i j : nat) : list A :=
  match arr !! i, arr !! j with
  | Some ai, Some aj => <[j := ai]> (<[i := aj]> arr)
  | _, _ => arr
  end.

(** The loop of [shuffleInPlace], [i] running down to 1; [rng() * (i + 1)]
    is [s * (i + 1) / 2^32], again exact in doubles. *)
Fixpoint shuffleLoop {A} (i : nat) (s : Z) (arr : list A) : list A :=
  match i with
  | O => arr
  | S i' =>
      let s' := lcgNext s in
      let j := Z.to_nat (s' * Z.of_nat (i + 1) / two32) in
      shuffleLoop i' s' (swap arr i j)
  end.

Definition shuffleInPlace {A} (arr : list A) (seed : Z) : list A :=
  shuffleLoop (length arr - 1) (seed mod two32) arr.

Definition suitName (s : Suit) : string :=
  match s with SuitS => "S" | SuitH => "H" | SuitD => "D" | SuitC => "C" end.

Definition rankName (r : Rank) : string :=
  match r with
  | RA => "A" | RK => "K" | RQ => "Q" | RJ => "J" | R10 => "10" | R9 => "9"
  | R8 => "8" | R7 => "7" | R6 => "6" | R5 => "5" | R4 => "4" | R3 => "3"
  | R2 => "2"
  end.

Definition allSuits : list Suit := [SuitS; SuitH; SuitD; SuitC].

Definition allRanks : list Rank :=
  [RA; RK; RQ; RJ; R10; R9; R8; R7; R6; R5; R4; R3; R2].

(** The 52 cards in creation order, with ids [`${suit}${rank}-${n++}`]. *)
Definition freshDeck : list Card :=
  imap (fun n sr => mkCard (fst sr) (snd sr)
                      (suitName (fst sr) +:+ rankName (snd sr) +:+ "-" +:+ pretty n))
       (s ← allSuits; r ← allRanks; [(s, r)]).

Definition makeDeck (seed : Z) : list Card := shuffleInPlace freshDeck seed.


(** ** Field updates

    The source assigns to fields of the state and of player objects; each
    assignment is a record copy here. *)

Definition setHand (h : list Card) (p : Player) : Player :=
  mkPlayer (p_id p) (p_name p) (p_type p) h (lives p) (eliminated p)
           (turnStage p) (drawnCardId p) (tookDiscardId p).

Definition setLives (l : Z) (e : bool) (p : Player) : Player :=
  mkPlayer (p_id p) (p_name p) (p_type p) (hand p) l e
           (turnStage p) (drawnCardId p) (tookDiscardId p).

Definition setTurn (st : option TurnStage) (d t : option string) (p : Player) : Player :=
  mkPlayer (p_id p) (p_name p) (p_type p) (hand p) (lives p) (eliminated p) st d t.

Definition setPlayers (ps : list Player) (s : GameState) : GameState :=
  mkState (roomId s) (rules s) ps (dealerIndex s) (turnIndex s) (phase s)
          (knockedBy s) (finalTurnsLeft s) (stock s) (discard s)
          (lastActionLog s) (winnerId s) (seed s).

Definition setTurnIndex (i : nat) (s : GameState) : GameState :=
  mkState (roomId s) (rules s) (players s) (dealerIndex s) i (phase s)
          (knockedBy s) (finalTurnsLeft s) (stock s) (discard s)
          (lastActionLog s) (winnerId s) (seed s).

Definition setPhase (ph : Phase) (s : GameState) : GameState :=
  mkState (roomId s) (rules s) (players s) (dealerIndex s) (turnIndex s) ph
          (knockedBy s) (finalTurnsLeft s) (stock s) (discard s)
          (lastActionLog s) (winnerId s) (seed s).

Definition setKnockedBy (k : option string) (s : GameState) : GameState :=
  mkState (roomId s) (rules s) (players s) (dealerIndex s) (turnIndex s) (phase s)
          k (finalTurnsLeft s) (stock s) (discard s)
          (lastActionLog s) (winnerId s) (seed s).

Definition setFinalTurnsLeft (n : Z) (s : GameState) : GameState :=
  mkState (roomId s) (rules s) (players s) (dealerIndex s) (turnIndex s) (phase s)
          (knockedBy s) n (stock s) (discard s)
          (lastActionLog s) (winnerId s) (seed s).

Definition setStock (st : list Card) (s : GameState) : GameState :=
  mkState (roomId s) (rules s) (players s) (dealerIndex s) (turnIndex s) (phase s)
          (knockedBy s) (finalTurnsLeft s) st (discard s)
          (lastActionLog s) (winnerId s) (seed s).

Definition setDiscard (d : list Card) (s : GameState) : GameState :=
  mkState (roomId s) (rules s) (players s) (dealerIndex s) (turnIndex s) (phase s)
          (knockedBy s) (finalTurnsLeft s) (stock s) d
          (lastActionLog s) (winnerId s) (seed s).

Definition setLog (l : list LogLine) (s : GameState) : GameState :=
  mkState (roomId s) (rules s) (players s) (dealerIndex s) (turnIndex s) (phase s)
          (knockedBy s) (finalTurnsLeft s) (stock s) (discard s)
          l (winnerId s) (seed s).

Definition setWinnerId (w : option string) (s : GameState) : GameState :=
  mkState (roomId s) (rules s) (players s) (dealerIndex s) (turnIndex s) (phase s)
          (knockedBy s) (finalTurnsLeft s) (stock s) (discard s)
          (lastActionLog s) w (seed s).

Definition setSeed (n : Z) (s : GameState) : GameState :=
  mkState (roomId s) (rules s) (players s) (dealerIndex s) (turnIndex s) (phase s)
          (knockedBy s) (finalTurnsLeft s) (stock s) (discard s)
          (lastActionLog s) (winnerId s) n.

(** [state.lastActionLog.push(line)]. *)
Definition pushLog (line : LogLine) (s : GameState) : GameState :=
  setLog (lastActionLog s ++ [line]) s.

(** ** Turn order, lives and the end of a hand *)

Definition refillStockFromDiscard (state : GameState) : GameState * bool :=
  if (length (discard state) <=? 1)%nat then (state, false)
  else
    match pop (discard state) with
    | Some (top, recycle) =>
        (pushLog LogReshuffled
           (setDiscard [top]
              (setStock (shuffleInPlace recycle (seed state))
                 (setSeed (seed state + 1) state))),
         true)
    | None => (state, false)
    end.

(** The loop of [nextActiveIndex]: [fuel] iterations remain and the next one
    looks at [fromIndex + step]. *)
Fixpoint nextActiveFrom (ps : list Player) (fromIndex step fuel : nat) : nat :=
  match fuel with
  | O => fromIndex
  | S fuel' =>
      let idx := ((fromIndex + step) mod length ps)%nat in
      match ps !! idx with
      | Some p =>
          if negb (eliminated p) then idx
          else nextActiveFrom ps fromIndex (S step) fuel'
      | None => fromIndex
      end
  end.

Definition nextActiveIndex (state : GameState) (fromIndex : nat) : nat :=
  nextActiveFrom (players state) fromIndex 1 (length (players state)).

Definition activePlayers (state : GameState) : list Player :=
  filter (fun p => eliminated p = false) (players state).

Definition loseLives (n : Z) (p : Player) : Player :=
  if eliminated p then p
  else if lives p - n <=? 0 then setLives 0 true p
  else setLives (lives p - n) (eliminated p) p.

Definition finishElimsAndMaybeGameOver (state : GameState) : GameState :=
  match filter (fun p => eliminated p = false) (players state) with
  | [w] => setPhase GAME_OVER (setWinnerId (Some (p_id w)) state)
  | _ => setWinnerId None state
  end.

(** [state.phase = state.winnerId ? "GAME_OVER" : "HAND_OVER"]. *)
Definition settlePhase (state : GameState) : GameState :=
  setPhase (if truthy (winnerId state) then GAME_OVER else HAND_OVER) state.

Definition resetTurnStages (state : GameState) : GameState :=
  setPlayers (map (setTurn None None None) (players state)) state.

Definition advanceTurn (state : GameState) : GameState :=
  let state1 :=
    setPlayers (alter (setTurn None None None) (turnIndex state) (players state)) state in
  setTurnIndex (nextActiveIndex state1 (turnIndex state1)) state1.

(** ** Dealing *)

(** The seats in dealing order: [k] successive calls of [nextActiveIndex],
    starting from [idx]. *)
Fixpoint dealOrder (state : GameState) (idx k : nat) : list nat :=
  match k with
  | O => []
  | S k' =>
      let idx' := nextActiveIndex state idx in
      idx' :: dealOrder state idx' k'
  end.

(** One iteration of the inner dealing loop; [None] is the thrown
    [Error("Stock empty during deal")]. *)
Definition dealCard (state : GameState) (pi : nat) : option GameState :=
  match pop (stock state) with
  | None => None
  | Some (card, rest) =>
      Some (setPlayers
              (alter (fun p => setHand (hand p ++ [card]) p) pi (players state))
              (setStock rest state))
  end.

Fixpoint dealRound (state : GameState) (order : list nat) : option GameState :=
  match order with
  | [] => Some state
  | pi :: order' =>
      match dealCard state pi with
      | None => None
      | Some state' => dealRound state' order'
      end
  end.

(** The life loss of a declared 31: every seat that is neither eliminated
    nor exempt loses one life. *)
Definition othersLoseOne (exempt : Player -> bool) (state : GameState) : GameState :=
  setPlayers
    (map (fun p => if eliminated p then p
                   else if exempt p then p
                   else loseLives 1 p) (players state))
    state.

(** The three dealing rounds over the same [order]. *)
Definition dealThreeRounds (state : GameState) (order : list nat)
  : option GameState :=
  state ← dealRound state order;
  state ← dealRound state order;
  dealRound state order.

(** The card flipped to start the discard pile; [None] is the thrown
    [Error("Stock empty starting discard")]. *)
Definition startDiscard (state : GameState) : option GameState :=
  match pop (stock state) with
  | None => None
  | Some (up, rest) => Some (setDiscard (discard state ++ [up]) (setStock rest state))
  end.

(** The automatic declaration of a dealt 31. *)
Definition declareDealt31 (state : GameState) : GameState :=
  let winners :=
    filter (fun p => negb (eliminated p) && hasExact31 (hand p) (rules state) = true)
           (players state) in
  if (0 <? length winners)%nat then
    let state := pushLog (LogDealt31 (map p_name winners)) state in
    let state :=
      othersLoseOne
        (fun p => existsb (fun w => String.eqb (p_id w) (p_id p)) winners) state in
    settlePhase (finishElimsAndMaybeGameOver state)
  else state.

(** The state [startHand] deals from: phase, knock state, stock, discard,
    log and hands reset. *)
Definition clearTable (state : GameState) : GameState :=
  let state := setPhase PLAYING state in
  let state := setKnockedBy None state in
  let state := setFinalTurnsLeft 0 state in
  let state := setSeed (seed state + 1) (setStock (makeDeck (seed state)) state) in
  let state := setDiscard [] state in
  let state := setLog [] state in
  setPlayers (map (setHand []) (players state)) state.

Definition startHand (state : GameState) : option GameState :=
  let state := clearTable state in
  let order := dealOrder state (dealerIndex state) (length (players state)) in
  state ← dealThreeRounds state order;
  state ← startDiscard state;
  let state := setTurnIndex (nextActiveIndex state (dealerIndex state)) state in
  Some (declareDealt31 state).

(** ** The action state machine *)

Definition canKnock (state : GameState) (playerId : string) : bool :=
  if negb (phase_eqb (phase state) PLAYING) then false
  else
    match players state !! turnIndex state with
    | None => false
    | Some current =>
        if negb (String.eqb (p_id current) playerId) then false
        else if truthy (knockedBy state) then false
        else if allowKnockAnyScore (rules state) then true
        else
          let v := handValue (hand current) (rules state) in
          match knockMinScore (rules state) with
          | Some m => Qle_bool m v
          | None => false
          end
    end.

(** [if (anyP.turnStage == null) anyP.turnStage = "START"]. *)
Definition initStage (p : Player) : Player :=
  match turnStage p with
  | None => setTurn (Some START) (drawnCardId p) (tookDiscardId p) p
  | Some _ => p
  end.

Definition isStart (p : Player) : bool :=
  match turnStage p with Some START => true | _ => false end.

Definition isDrew (p : Player) : bool :=
  match turnStage p with Some DREW => true | _ => false end.

(** [state.players[state.turnIndex] = p], the write-back of a change made
    through the alias [p]. *)
Definition putCurrent (p : Player) (state : GameState) : GameState :=
  setPlayers (<[turnIndex state := p]> (players state)) state.

Definition nameOf (state : GameState) (pid : string) : string :=
  match find (fun p => String.eqb (p_id p) pid) (players state) with
  | Some p => p_name p
  | None => ""
  end.

(** [const lp = state.players.find(p => p.id === pid)!], the log line
    naming [lp], then [loseLives(lp, n)]. *)
Definition penalise (line : string → LogLine) (n : Z) (state : GameState)
    (pid : string) : GameState :=
  setPlayers
    (alterFirst (fun p => String.eqb (p_id p) pid) (loseLives n) (players state))
    (pushLog (line (nameOf state pid)) state).

(** The [scores] array of [scoreShowdown]: id and hand value of every
    non-eliminated player. *)
Definition showdownScores (state : GameState) : list (string * Q) :=
  map (fun p => (p_id p, handValue (hand p) (rules state)))
      (filter (fun p => eliminated p = false) (players state)).

(** The [lowest] array: the ids whose value equals [Math.min(...)] of all
    the values. *)
Definition lowestIds (scores : list (string * Q)) : list string :=
  match map snd scores with
  | [] => []
  | v :: vs =>
      let min := fold_left Qmin vs v in
      map fst (filter (fun sc => Qeq_bool (snd sc) min = true) scores)
  end.

Definition scoreShowdown (state : GameState) : GameState :=
  let knockerId := knockedBy state in
  let scores := showdownScores state in
  let lowest := lowestIds scores in
  let state :=
    pushLog (LogShowdown (map (fun sc => (nameOf state (fst sc), snd sc)) scores))
            state in
  let state :=
    match knockerId with
    | Some k =>
        if match lowest with [l0] => String.eqb l0 k | _ => false end
        then penalise LogKnockerSoleLowest 2 state k
        else if existsb (String.eqb k) lowest
        then fold_left (fun st pid => if String.eqb pid k then st
                                      else penalise LogTiesWithKnocker 1 st pid)
                       lowest state
        else fold_left (penalise LogIsLowest 1) lowest state
    | None => fold_left (penalise LogIsLowest 1) lowest state
    end in
  settlePhase (finishElimsAndMaybeGameOver state).

Definition applyAction (state : GameState) (playerId : string) (action : Action)
  : GameState * Result :=
  if negb (phase_eqb (phase state) PLAYING) && negb (phase_eqb (phase state) KNOCKED)
  then (state, Rejected "Hand is not active.")
  else
  match players state !! turnIndex state with
  | None => (state, Rejected "Not your turn.")
  | Some p0 =>
  if negb (String.eqb (p_id p0) playerId) then (state, Rejected "Not your turn.")
  else if eliminated p0 then (state, Rejected "You are eliminated.")
  else
  let p := initStage p0 in
  let state := putCurrent p state in
  match action with
  | KNOCK =>
      if negb (isStart p)
      then (state, Rejected "You can only knock at the start of your turn.")
      else if negb (canKnock state playerId) then (state, Rejected "Knock not allowed.")
      else
        let state := setKnockedBy (Some playerId) state in
        let state := setPhase KNOCKED state in
        let state :=
          setFinalTurnsLeft (Z.of_nat (length (activePlayers state)) - 1) state in
        let state := pushLog (LogKnocks (p_name p)) state in
        (advanceTurn state, Ok)
  | DRAW_STOCK =>
      if negb (isStart p) then (state, Rejected "You already drew.")
      else
        let refilled :=
          if (length (stock state) =? 0)%nat then refillStockFromDiscard state
          else (state, true) in
        if negb (snd refilled) then (fst refilled, Rejected "No cards left to draw.")
        else
          let state := fst refilled in
          match pop (stock state) with
          | None => (state, Rejected "No cards left to draw.")
          | Some (c, rest) =>
              let state := setStock rest state in
              let p := setTurn (Some DREW) (Some (card_id c)) (tookDiscardId p)
                               (setHand (hand p ++ [c]) p) in
              let state := putCurrent p state in
              (pushLog (LogDrawsStock (p_name p)) state, Ok)
          end
  | DRAW_DISCARD =>
      if negb (isStart p) then (state, Rejected "You already drew.")
      else
        match pop (discard state) with
        | None => (state, Rejected "Discard is empty.")
        | Some (c, rest) =>
            let state := setDiscard rest state in
            let p := setTurn (Some DREW) (drawnCardId p) (Some (card_id c))
                             (setHand (hand p ++ [c]) p) in
            let state := putCurrent p state in
            (pushLog (LogTakesDiscard (p_name p)) state, Ok)
        end
  | DISCARD cardId =>
      if negb (isDrew p) then (state, Rejected "You must draw first.")
      else
        match findIndex (fun x => String.eqb (card_id x) cardId) (hand p) with
        | None => (state, Rejected "You don't have that card.")
        | Some idx =>
            if truthy (tookDiscardId p)
               && bool_decide (tookDiscardId p = Some cardId)
            then (state,
                  Rejected "Illegal: cannot discard the same card you took from discard.")
            else
              let removed := hand p !! idx in
              let p := setHand (delete idx (hand p)) p in
              let state := putCurrent p state in
              let state :=
                match removed with
                | Some c => setDiscard (discard state ++ [c]) state
                | None => state
                end in
              if negb (length (hand p) =? 3)%nat
              then (state, Rejected "Internal error: hand size not 3.")
              else if hasExact31 (hand p) (rules state) then
                let state := pushLog (LogDeclares31 (p_name p)) state in
                let state :=
                  othersLoseOne (fun op => String.eqb (p_id op) (p_id p)) state in
                let state := settlePhase (finishElimsAndMaybeGameOver state) in
                (resetTurnStages state, Ok)
              else
                let state := pushLog (LogDiscards (p_name p)) state in
                if phase_eqb (phase state) KNOCKED then
                  let state := setFinalTurnsLeft (finalTurnsLeft state - 1) state in
                  if finalTurnsLeft state <=? 0 then
                    let state := setPhase SHOWDOWN state in
                    (resetTurnStages (scoreShowdown state), Ok)
                  else (advanceTurn state, Ok)
                else (advanceTurn state, Ok)
        end
  end
  end.

(** ** The per-viewer projection *)

Record SeatView := mkSeatView {
  sv_id : string;
  sv_name : string;
  sv_type : PlayerType;
  sv_lives : Z;
  sv_eliminated : bool;
  handCount : nat;
  revealedHand : option (list Card);
  revealedValue : option Q
}.

Record YouView := mkYouView {
  you_id : string;
  you_name : string;
  you_hand : list Card;
  canAct : bool;
  you_canKnock : bool;
  mustDiscard : bool
}.

Record ClientView := mkClientView {
  cv_roomId : string;
  cv_rules : Rules;
  cv_players : list SeatView;
  cv_dealerIndex : nat;
  turnPlayerId : string;
  cv_phase : Phase;
  cv_knockedBy : option string;
  stockCount : nat;
  topDiscard : option Card;
  you : option YouView;
  cv_log : list LogLine
}.

Definition revealAll (state : GameState) : bool :=
  phase_eqb (phase state) SHOWDOWN || phase_eqb (phase state) HAND_OVER
  || phase_eqb (phase state) GAME_OVER.

(** [viewerId && p.id === viewerId]. *)
Definition isViewer (viewerId : option string) (p : Player) : bool :=
  truthy viewerId && bool_decide (viewerId = Some (p_id p)).

Definition seatView (state : GameState) (viewerId : option string) (p : Player)
  : SeatView :=
  let revealThis := revealAll state || isViewer viewerId p in
  mkSeatView (p_id p) (p_name p) (p_type p) (lives p) (eliminated p)
             (length (hand p))
             (if revealThis then Some (hand p) else None)
             (if revealAll state then Some (handValue (hand p) (rules state)) else None).

Definition makeClientView (state : GameState) (viewerId : option string) : ClientView :=
  let turnPlayer := players state !! turnIndex state in
  let youP :=
    if truthy viewerId
    then find (fun p => bool_decide (viewerId = Some (p_id p))) (players state)
    else None in
  mkClientView
    (roomId state) (rules state)
    (map (seatView state viewerId) (players state))
    (dealerIndex state)
    (match turnPlayer with Some tp => p_id tp | None => "" end)
    (phase state) (knockedBy state)
    (length (stock state))
    (fst <$> pop (discard state))
    (match youP with
     | Some y =>
         Some (mkYouView (p_id y) (p_name y) (hand y)
                 ((phase_eqb (phase state) PLAYING || phase_eqb (phase state) KNOCKED)
                  && match turnPlayer with
                     | Some tp => String.eqb (p_id tp) (p_id y)
                     | None => false
                     end)
                 (canKnock state (p_id y))
                 (isDrew y))
     | None => None
     end)
    (drop (length (lastActionLog state) - 12) (lastActionLog state)).

(** ** The CPU policy of the game room *)

Inductive CpuDifficulty := easy | medium | hard.

Record Room := mkRoom { room_state : GameState; cpuDifficulty : CpuDifficulty }.

Definition knockThreshold (diff : CpuDifficulty) : Q :=
  match diff with easy => 28 | medium => 27 | hard => 25 end.

Definition takeDiscardBias (diff : CpuDifficulty) : Q :=
  match diff with easy => 2 # 10 | medium => 6 # 10 | hard => 9 # 10 end.

(** [cards.filter(x => x.id !== c.id)]. *)
Definition without (c : Card) (cards : list Card) : list Card :=
  filter (fun x => String.eqb (card_id x) (card_id c) = false) cards.

Definition bestValueAfterAdding (hand : list Card) (add : Card) (rules : Rules) : Q :=
  let cards := hand ++ [add] in
  fold_left (fun best c =>
               let v := handValue (without c cards) rules in
               if Qlt_le_dec best v then v else best)
            cards (-1)%Q.

Definition firstId (hand4 : list Card) : string :=
  match hand4 with c :: _ => card_id c | [] => "" end.

Definition chooseBestDiscard (hand4 : list Card) (rules : Rules) : string :=
  snd (fold_left (fun acc c =>
                    let v := handValue (without c hand4) rules in
                    if Qlt_le_dec (fst acc) v then (v, card_id c) else acc)
                 hand4 ((-1)%Q, firstId hand4)).

(** [Math.random] is an input of the policy: [rnd k] is the value of the
    [k]-th call made during one CPU turn, a rational in [0, 1). *)
Definition chooseDiscardEasy (rnd : nat -> Q) (k : nat) (hand4 : list Card)
    (rules : Rules) : string :=
  if Qlt_le_dec (rnd k) (6 # 10) then
    match hand4 !! Z.to_nat (Qfloor (rnd (S k) * inject_Z (Z.of_nat (length hand4)))) with
    | Some c => card_id c
    | None => ""
    end
  else chooseBestDiscard hand4 rules.

Definition maxSuitCount (three : list Card) : nat :=
  foldr Nat.max 0%nat
        (map (fun s => length (filter (fun t => suit_eqb (suit t) s = true) three))
             allSuits).

(** The bonus [0.15] is taken as the rational 3/20. *)
Definition chooseBestDiscardHard (hand4 : list Card) (rules : Rules) : string :=
  snd (fold_left (fun acc c =>
                    let three := without c hand4 in
                    let v := handValue three rules in
                    let suitedBonus :=
                      if (2 <=? maxSuitCount three)%nat then (3 # 20)%Q else 0%Q in
                    let score := (v + suitedBonus)%Q in
                    if Qlt_le_dec (fst acc) score then (score, card_id c) else acc)
                 hand4 ((-1000000000)%Q, firstId hand4)).

(** [maybeRunCpuTurn(room, onAction)]: the state after the call and the
    actions passed to [onAction], in order. *)
Definition maybeRunCpuTurn (rnd : nat -> Q) (room : Room) : GameState * list Action :=
  let s := room_state room in
  if negb (phase_eqb (phase s) PLAYING) && negb (phase_eqb (phase s) KNOCKED)
  then (s, [])
  else
  match players s !! turnIndex s with
  | None => (s, [])
  | Some p =>
  if eliminated p || match p_type p with CPU => false | HUMAN => true end
  then (s, [])
  else
  let diff := cpuDifficulty room in
  let currentValue := handValue (hand p) (rules s) in
  if Qle_bool (knockThreshold diff) currentValue then
    match applyAction s (p_id p) KNOCK with
    | (s', Ok) => (s', [KNOCK])
    | (s', Rejected _) => (s', [])
    end
  else
    let improves :=
      match pop (discard s) with
      | Some (top, _) =>
          if Qlt_le_dec currentValue (bestValueAfterAdding (hand p) top (rules s))
          then true else false
      | None => false
      end in
    let takeDiscard_k :=
      match diff with
      | hard => (improves, 0%nat)
      | _ =>
          if improves
          then (if Qlt_le_dec (rnd 0%nat) (takeDiscardBias diff) then true else false,
                1%nat)
          else (false, 0%nat)
      end in
    let drawAction := if fst takeDiscard_k then DRAW_DISCARD else DRAW_STOCK in
    match applyAction s (p_id p) drawAction with
    | (s1, Rejected _) => (s1, [])
    | (s1, Ok) =>
        let hand4 :=
          match players s1 !! turnIndex s with Some q => hand q | None => [] end in
        let discardId :=
          match diff with
          | easy => chooseDiscardEasy rnd (snd takeDiscard_k) hand4 (rules s1)
          | medium => chooseBestDiscard hand4 (rules s1)
          | hard => chooseBestDiscardHard hand4 (rules s1)
          end in
        match applyAction s1 (p_id p) (DISCARD discardId) with
        | (s2, Rejected _) => (s2, [drawAction])
        | (s2, Ok) => (s2, [drawAction; DISCARD discardId])
        end
    end
  end.

(** ** The game room

    [makePlayer], [createRoom], [addHuman], [viewFor], [nextHand] and
    [rematch] of the game room, and [runCpuLoop] of the server. What the
    source draws from [uuid()], [shortId()] and [Math.random()] is an input.
    A room's [id] is the [roomId] of its state; [socketsByPlayerId], which
    these functions only ever create empty, is not part of [Room]. A call in
    which [startHand] throws is [None]. *)

Definition setDealerIndex (i : nat) (s : GameState) : GameState :=
  mkState (roomId s) (rules s) (players s) i (turnIndex s) (phase s)
          (knockedBy s) (finalTurnsLeft s) (stock s) (discard s)
          (lastActionLog s) (winnerId s) (seed s).

Definition makePlayer (id name : string) (type : PlayerType) : Player :=
  mkPlayer id name type [] 3 false None None None.

(** [Partial<Rules>]: [Some] for a field the override carries. *)
Record PartialRules := mkPartialRules {
  pr_startingLives : option Z;
  pr_allowKnockAnyScore : option bool;
  pr_knockMinScore : option (option Q);
  pr_threeOfKindValue : option (option Q)
}.

(** [{ startingLives: 3, allowKnockAnyScore: true, knockMinScore: null,
    threeOfKindValue: 30.5, ...rules }]. *)
Definition baseRules (override : option PartialRules) : Rules :=
  match override with
  | None => mkRules 3 true None (Some (61 # 2)%Q)
  | Some r =>
      mkRules (default 3 (pr_startingLives r))
              (default true (pr_allowKnockAnyScore r))
              (default None (pr_knockMinScore r))
              (default (Some (61 # 2)%Q) (pr_threeOfKindValue r))
  end.

(** [p.lives = startingLives; p.eliminated = false; p.hand = []]. *)
Definition seatReset (l : Z) (p : Player) : Player :=
  setHand [] (setLives l false p).

(** The seats pushed by the loop [for (let i = 0; i < cpuCount; i++)]; the
    host has taken the first [uuid()]. *)
Definition cpuSeats (uuid : nat → string) (cpuCount : Z) : list Player :=
  map (fun i => makePlayer (uuid (S i)) ("CPU " +:+ pretty (i + 1)%nat) CPU)
      (seq 0 (Z.to_nat cpuCount)).

Definition createRoom (shortId : string) (uuid : nat → string) (seed0 : Z)
    (hostName : string) (cpuCount : Z) (diff : CpuDifficulty)
    (override : option PartialRules) : option Room :=
  let rules := baseRules override in
  let players := makePlayer (uuid 0%nat) hostName HUMAN :: cpuSeats uuid cpuCount in
  let players := map (seatReset (startingLives rules)) players in
  let state :=
    mkState shortId rules players 0 0 PLAYING None 0 [] [] [] None seed0 in
  state ← startHand state;
  Some (mkRoom state diff).

(** The player returned is the object pushed on [players], as [startHand]
    has left it. *)
Definition addHuman (id : string) (room : Room) (name : string)
  : option (Room * Player) :=
  let s := room_state room in
  let p := seatReset (startingLives (rules s)) (makePlayer id name HUMAN) in
  let s1 := setPlayers (players s ++ [p]) s in
  let s1 := pushLog (LogText (name +:+ " joined. Restarting hand.")) s1 in
  let s1 := setDealerIndex 0 s1 in
  s2 ← startHand s1;
  Some (mkRoom s2 (cpuDifficulty room),
        default p (players s2 !! length (players s))).

Definition viewFor (room : Room) (playerId : option string) : ClientView :=
  makeClientView (room_state room) playerId.

Definition nextHand (room : Room) : option Room :=
  let s := room_state room in
  if negb (phase_eqb (phase s) HAND_OVER) then Some room
  else
    let s := setDealerIndex (nextActiveIndex s (dealerIndex s)) s in
    s ← startHand s;
    Some (mkRoom s (cpuDifficulty room)).

Definition rematch (room : Room) : option Room :=
  let s := room_state room in
  let s := setPlayers (map (seatReset (startingLives (rules s))) (players s)) s in
  let s := setWinnerId None s in
  let s := setPhase PLAYING s in
  let s := setKnockedBy None s in
  let s := setFinalTurnsLeft 0 s in
  let s := setDealerIndex 0 s in
  let s := setTurnIndex 0 s in
  let s := setLog [LogText "Rematch started. Lives reset."] s in
  s ← startHand s;
  Some (mkRoom s (cpuDifficulty room)).

(** The loop of [runCpuLoop], [guard] iterations remaining; [rnd iter] is
    the [Math.random] of the CPU turn run in iteration [iter]. The final
    [broadcast] only reads the room. *)
Fixpoint cpuLoop (rnd : nat → nat → Q) (iter guard : nat) (room : Room) : Room :=
  match guard with
  | O => room
  | S guard' =>
      let s := room_state room in
      if phase_eqb (phase s) HAND_OVER || phase_eqb (phase s) GAME_OVER
         || phase_eqb (phase s) SHOWDOWN
      then room
      else
        match players s !! turnIndex s with
        | None => room
        | Some current =>
            if eliminated current then
              cpuLoop rnd (S iter) guard'
                (mkRoom (setTurnIndex (nextActiveIndex s (turnIndex s)) s)
                        (cpuDifficulty room))
            else
              match p_type current with
              | HUMAN => room
              | CPU =>
                  let room' :=
                    mkRoom (fst (maybeRunCpuTurn (rnd iter) room))
                           (cpuDifficulty room) in
                  if (turnIndex (room_state room') =? turnIndex s)%nat then room'
                  else cpuLoop rnd (S iter) guard' room'
              end
        end
  end.

Definition runCpuLoop (rnd : nat → nat → Q) (room : Room) : Room :=
  cpuLoop rnd 0 50 room.

(** * Vocabulary of the properties, and sample tables

    The notions the statements below are phrased in, and the concrete
    tables and action sequences they are exercised on. *)

(** ** Hand values, in the words of the specification *)

(** The specification's wording of the natural value: per suit, the sum of
    [rankValue] over the cards of that suit; the best of these, and the best
    single card. *)
Definition suitSum (s : Suit) (hand : list Card) : Z :=
  foldr Z.add 0 (map (fun c => rankValue (rank c))
                     (filter (fun c => suit c = s) hand)).

Definition maxList (l : list Z) : Z := foldr Z.max 0 l.

Definition bestSameSuitSum (hand : list Card) : Z :=
  maxList (map (fun s => suitSum s hand) allSuits).

Definition bestSingleCard (hand : list Card) : Z :=
  maxList (map (fun c => rankValue (rank c)) hand).

Definition allSameRank (hand : list Card) : Prop :=
  ∀ x y, x ∈ hand → y ∈ hand → rank x = rank y.

(** ** A sample hand, the default rules and sample tables *)

Definition queens : list Card :=
  [mkCard SuitS RQ "SQ-2"; mkCard SuitH RQ "HQ-15"; mkCard SuitD RQ "DQ-28"].

Definition defaultRules : Rules := mkRules 3 true None (Some (61 # 2)%Q).

Definition internalError : string := "Internal error: hand size not 3.".

Definition seat (i n : string) (ty : PlayerType) (l : Z) : Player :=
  mkPlayer i n ty [] l (l <=? 0) None None None.

Definition lobby (ps : list Player) (dealer : nat) (sd : Z) : GameState :=
  mkState "ROOM1" defaultRules ps dealer 0 HAND_OVER None 0 [] [] [] None sd.

Definition lobby3 : GameState :=
  lobby [seat "a" "Ann" HUMAN 3; seat "b" "Bob" CPU 2; seat "c" "Cy" CPU 1] 0 7.

(** Three seats, nobody eliminated, dealt with seed 7: seat "b" is to act. *)
Definition table3 : GameState :=
  Eval vm_compute in default lobby3 (startHand lobby3).

(** The same table after "b" has drawn from the stock. *)
Definition table3_drew : GameState :=
  Eval vm_compute in fst (applyAction table3 "b" DRAW_STOCK).

Definition bob_drew : Player :=
  Eval vm_compute in default (seat "b" "Bob" CPU 2) (players table3_drew !! 1%nat).

(** ** The perspective view *)

Definition revealPhase (ph : Phase) : Prop :=
  ph = SHOWDOWN ∨ ph = HAND_OVER ∨ ph = GAME_OVER.

(** The viewer is the seat [p]: the view was requested with [p]'s id. *)
Definition viewerIs (viewerId : option string) (p : Player) : Prop :=
  viewerId = Some (p_id p).

(** The property as the specification words it: the hand and its value are both
    present in a seat's entry exactly when the viewer is that seat or the
    phase reveals all. *)
Definition reveals_hand_and_value_iff (state : GameState) (viewerId : option string)
  : Prop :=
  ∀ i p sv,
    players state !! i = Some p →
    cv_players (makeClientView state viewerId) !! i = Some sv →
    (revealedHand sv = Some (hand p)
     ∧ revealedValue sv = Some (handValue (hand p) (rules state)))
    ↔ (viewerIs viewerId p ∨ revealPhase (phase state)).

(** ** The CPU policy *)

(** Two seats, dealer at seat 1, dealt with seed 7: the human "a" acts first
    and holds 12, the CPU "b" holds 25. *)
Definition duel_lobby : GameState :=
  lobby [seat "a" "Ann" HUMAN 3; seat "b" "Bob" CPU 3] 1 7.

Definition duel : GameState :=
  Eval vm_compute in default duel_lobby (startHand duel_lobby).

(** The duel after "a" has knocked: it is the CPU's final turn. *)
Definition duel_knocked : GameState :=
  Eval vm_compute in fst (applyAction duel "a" KNOCK).

(** The CPU seat the policy runs for, if it is a CPU's turn. *)
Definition cpuToAct (s : GameState) : option Player :=
  if negb (phase_eqb (phase s) PLAYING) && negb (phase_eqb (phase s) KNOCKED)
  then None
  else
    match players s !! turnIndex s with
    | Some p =>
        if eliminated p || match p_type p with CPU => false | HUMAN => true end
        then None else Some p
    | None => None
    end.

Definition isDraw (a : Action) : bool :=
  match a with DRAW_STOCK | DRAW_DISCARD => true | _ => false end.

(** ** Rejections *)

(** The property as the specification words it: a rejected action leaves the
    state exactly as it was. *)
Definition rejection_keeps_state (s : GameState) (playerId : string) (a : Action)
  : Prop :=
  ∀ e, snd (applyAction s playerId a) = Rejected e →
       fst (applyAction s playerId a) = s.

(** [s'] is [s], up to the initialisation of the acting player's unset
    [turnStage] to START. *)
Definition stageInitOnly (s s' : GameState) : Prop :=
  s' = s
  ∨ ∃ p, players s !! turnIndex s = Some p
         ∧ turnStage p = None
         ∧ s' = putCurrent (setTurn (Some START) (drawnCardId p) (tookDiscardId p) p) s.

(** ** Showdown scoring *)

Definition score (s : GameState) (p : Player) : Q := handValue (hand p) (rules s).

(** [p] is not eliminated and no non-eliminated player has a lower value. *)
Definition lowestb (s : GameState) (p : Player) : bool :=
  negb (eliminated p)
  && forallb (fun q => eliminated q || Qle_bool (score s p) (score s q)) (players s).

Definition isKnockerb (s : GameState) (p : Player) : bool :=
  bool_decide (knockedBy s = Some (p_id p)).

(** The tied-lowest players, in seat order. *)
Definition tiedLowest (s : GameState) : list Player :=
  filter (fun p => lowestb s p = true) (players s).

Definition knockerTied (s : GameState) : bool := existsb (isKnockerb s) (tiedLowest s).

Definition soleLowestKnocker (s : GameState) : bool :=
  knockerTied s && (length (tiedLowest s) =? 1)%nat.

(** The number of lives the rule of the specification takes from [p]. *)
Definition penalty (s : GameState) (p : Player) : Z :=
  if soleLowestKnocker s then (if lowestb s p then 2 else 0)
  else if knockerTied s
       then (if lowestb s p && negb (isKnockerb s p) then 1 else 0)
       else (if lowestb s p then 1 else 0).

(** The data-model invariants the scoring rule relies on. *)
Definition uniqueIds (s : GameState) : Prop := NoDup (map p_id (players s)).

Definition livesConsistent (s : GameState) : Prop :=
  ∀ p, p ∈ players s → eliminated p = false → 1 <= lives p.

(** The property as the specification words it: each player's life count drops by
    exactly the penalty of the rule. *)
Definition showdown_exact_losses (s : GameState) : Prop :=
  ∀ i p p',
    players s !! i = Some p →
    players (scoreShowdown s) !! i = Some p' →
    lives p' = lives p - penalty s p.

(** What the rule does to one player: nothing, or [loseLives]. *)
Definition penalised (s : GameState) (p : Player) : Player :=
  if penalty s p =? 0 then p else loseLives (penalty s p) p.

(** A duel in which the knocker "a" has one life left: dealt with seed 7,
    "a" (holding 12) knocks, "b" (holding 25) draws the six of clubs. *)
Definition lastLife_lobby : GameState :=
  lobby [seat "a" "Ann" HUMAN 1; seat "b" "Bob" CPU 3] 1 7.

Definition lastLife_drew : GameState :=
  Eval vm_compute in
    fst (applyAction
           (fst (applyAction (default lastLife_lobby (startHand lastLife_lobby))
                             "a" KNOCK))
           "b" DRAW_STOCK).

(** The state [scoreShowdown] is called on when "b" discards the six. *)
Definition lastLife_showdown : GameState :=
  Eval vm_compute in
    setPhase SHOWDOWN
      (setFinalTurnsLeft 0
         (pushLog (LogDiscards "Bob")
            (setDiscard (discard lastLife_drew ++ [mkCard SuitC R6 "C6-47"])
               (setPlayers
                  (alter (fun p => setHand (delete 3%nat (hand p)) p) 1%nat
                         (players lastLife_drew))
                  lastLife_drew)))).

Definition ann_lastLife : Player :=
  Eval vm_compute in
    default (seat "a" "Ann" HUMAN 1) (players lastLife_showdown !! 0%nat).

(** ** The outcomes of an accepted action *)

Definition activePhase (ph : Phase) : Prop := ph = PLAYING ∨ ph = KNOCKED.

(** The acting player [p] of [s], entitled to act under the name
    [playerId]. *)
Definition acting (s : GameState) (playerId : string) (p : Player) : Prop :=
  activePhase (phase s)
  ∧ players s !! turnIndex s = Some p
  ∧ p_id p = playerId
  ∧ eliminated p = false.

(** The state right after the card at [idx] of the acting player's hand has
    been moved to the discard pile. *)
Definition afterDiscard (s : GameState) (p : Player) (idx : nat) (c : Card)
  : GameState :=
  setDiscard (discard s ++ [c]) (putCurrent (setHand (delete idx (hand p)) p) s).

(** The end of a hand by a declared 31. *)
Definition declare31 (s : GameState) (p : Player) : GameState :=
  resetTurnStages
    (settlePhase
       (finishElimsAndMaybeGameOver
          (othersLoseOne (fun op => String.eqb (p_id op) (p_id p))
             (pushLog (LogDeclares31 (p_name p)) s)))).

(** The showdown run by the last final turn. *)
Definition runShowdown (s : GameState) : GameState :=
  resetTurnStages (scoreShowdown (setPhase SHOWDOWN s)).

(** The four outcomes of an accepted DISCARD of the card [c] at position
    [idx] of the hand of [p]: a declared 31; the showdown after the last
    final turn; a final turn that is not the last; an ordinary turn. *)
Definition discardOutcome (s : GameState) (p : Player) (idx : nat) (c : Card)
    (s' : GameState) : Prop :=
  let s1 := afterDiscard s p idx c in
  let s2 := pushLog (LogDiscards (p_name p)) s1 in
  let left := finalTurnsLeft s - 1 in
  (hasExact31 (delete idx (hand p)) (rules s) = true ∧ s' = declare31 s1 p)
  ∨ (hasExact31 (delete idx (hand p)) (rules s) = false
     ∧ ((phase s = KNOCKED ∧ left <= 0
         ∧ s' = runShowdown (setFinalTurnsLeft left s2))
        ∨ (phase s = KNOCKED ∧ 0 < left
           ∧ s' = advanceTurn (setFinalTurnsLeft left s2))
        ∨ (phase s = PLAYING ∧ s' = advanceTurn s2))).

(** ** A declared 31 *)

Definition idsNonEmpty (s : GameState) : Prop := "" ∉ map p_id (players s).

Definition turnCleared (p : Player) : Prop :=
  turnStage p = None ∧ drawnCardId p = None ∧ tookDiscardId p = None.

(** Three seats dealt with seed 528 and dealer 2: "a" knocks, then "b"
    draws the card that lets it discard down to 31 during its final turn. *)
Definition final31_lobby : GameState :=
  lobby [seat "a" "Ann" HUMAN 3; seat "b" "Bob" CPU 1; seat "c" "Cy" CPU 2] 2 528.

Definition final31_drew : GameState :=
  Eval vm_compute in
    fst (applyAction
           (fst (applyAction (default final31_lobby (startHand final31_lobby))
                             "a" KNOCK))
           "b" DRAW_STOCK).

Definition final31_end : GameState :=
  Eval vm_compute in fst (applyAction final31_drew "b" (DISCARD "S6-8")).

Definition bob_31 : Player :=
  Eval vm_compute in default (seat "b" "Bob" CPU 1) (players final31_end !! 1%nat).

(** ** Actions that do not move the turn *)

(** What a rejected action and an accepted draw leave alone: the phase, the
    countdown, the knocker, the turn, the rules, and who sits where and is
    still in the game. *)
Record sameTable (s s' : GameState) : Prop := mkSameTable {
  st_phase : phase s' = phase s;
  st_left : finalTurnsLeft s' = finalTurnsLeft s;
  st_knockedBy : knockedBy s' = knockedBy s;
  st_turnIndex : turnIndex s' = turnIndex s;
  st_rules : rules s' = rules s;
  st_ids : map p_id (players s') = map p_id (players s);
  st_eliminated : map eliminated (players s') = map eliminated (players s)
}.

Definition isDrawAction (a : Action) : Prop := a = DRAW_STOCK ∨ a = DRAW_DISCARD.

(** ** Turn order around the table *)

(** The eliminated flags in seat order. *)
Definition flags (ps : list Player) : list bool := map eliminated ps.

(** The number of seats still in the game among those at distance [o] or
    more, clockwise, from seat [k] (and before coming back to [k]). *)
Definition activeFrom (ps : list Player) (k o : nat) : nat :=
  length (filter (fun b => b = false) (drop o (rotate k (flags ps)))).

(** ** Sequences of actions and the final turns *)

(** Playing a sequence of submitted actions, each with the id of the player
    submitting it; rejected actions are part of the sequence. *)
Definition run (s : GameState) (acts : list (string * Action)) : GameState :=
  fold_left (fun st pa => fst (applyAction st (fst pa) (snd pa))) acts s.

Definition isDiscard (a : Action) : bool :=
  match a with DISCARD _ => true | _ => false end.

Definition accepted (s : GameState) (playerId : string) (a : Action) : bool :=
  match snd (applyAction s playerId a) with Ok => true | Rejected _ => false end.

(** The seat that acted in [s] holds exactly 31 in [s']. *)
Definition madeExact31 (s s' : GameState) : bool :=
  match players s' !! turnIndex s with
  | Some d => hasExact31 (hand d) (rules s')
  | None => false
  end.

(** An accepted DISCARD that leaves the discarding player with 31. *)
Definition declares31 (s : GameState) (playerId : string) (a : Action) : bool :=
  isDiscard a && accepted s playerId a
  && madeExact31 s (fst (applyAction s playerId a)).

(** A completed final turn: an accepted DISCARD, not making 31, by a player
    other than the knocker while the phase is KNOCKED. *)
Definition finalTurn (s : GameState) (playerId : string) (a : Action) : bool :=
  isDiscard a && accepted s playerId a
  && phase_eqb (phase s) KNOCKED
  && negb (bool_decide (knockedBy s = Some playerId))
  && negb (madeExact31 s (fst (applyAction s playerId a))).

Fixpoint finalTurns (s : GameState) (acts : list (string * Action)) : nat :=
  match acts with
  | [] => 0
  | (playerId, a) :: rest =>
      ((if finalTurn s playerId a then 1 else 0)
       + finalTurns (fst (applyAction s playerId a)) rest)%nat
  end.

Fixpoint any31 (s : GameState) (acts : list (string * Action)) : bool :=
  match acts with
  | [] => false
  | (playerId, a) :: rest =>
      declares31 s playerId a || any31 (fst (applyAction s playerId a)) rest
  end.

(** The state during the final turns: [m] of them are left, the knocker
    sits at seat [k], the turn is [o] seats further on, and exactly [m]
    players still in the game sit from there on before the knocker. *)
Definition countdown (st : GameState) (m : nat) : Prop :=
  uniqueIds st
  ∧ phase st = KNOCKED
  ∧ finalTurnsLeft st = Z.of_nat m
  ∧ (1 ≤ m)%nat
  ∧ ∃ k pk o,
      players st !! k = Some pk
      ∧ knockedBy st = Some (p_id pk)
      ∧ (1 ≤ o < length (players st))%nat
      ∧ turnIndex st = ((k + o) mod length (players st))%nat
      ∧ activeFrom (players st) k o = m.

(** After "b" has knocked at [table3]: a rejected knock, and the final
    turns of "c" and "a". *)
Definition finalTurns_script : list (string * Action) :=
  [("c", DRAW_STOCK); ("a", KNOCK); ("c", DISCARD "C3-50");
   ("a", DRAW_DISCARD); ("a", DISCARD "D10-30")].

Definition table3_knocked : GameState :=
  Eval vm_compute in fst (applyAction table3 "b" KNOCK).

(** ** Dealing and hand sizes *)

Definition noneEliminated (ps : list Player) : Prop :=
  ∀ p, p ∈ ps → eliminated p = false.

(** Handing out cards: [give c i] is the push on seat [i]'s hand, [giveAll]
    one round of the dealing loop. *)
Definition give (c : Card) (i : nat) (ps : list Player) : list Player :=
  alter (fun p => setHand (hand p ++ [c]) p) i ps.

Fixpoint giveAll (order : list nat) (cs : list Card) (ps : list Player)
  : list Player :=
  match order, cs with
  | i :: order', c :: cs' => giveAll order' cs' (give c i ps)
  | _, _ => ps
  end.

(** The players after the three rounds, with nobody eliminated: the seat
    [j] places after the dealer holds the cards number [j], [n + j] and
    [2n + j] from the top of the deck. *)
Definition dealtPlayers (ps : list Player) (dealer : nat) (deck : list Card)
  : list Player :=
  let n := length ps in
  let order := map (fun j => ((dealer + j) mod n)%nat) (seq 1 n) in
  giveAll order (take n (drop (2 * n) deck))
    (giveAll order (take n (drop n deck))
       (giveAll order (take n deck) (map (setHand []) ps))).

(** Nobody is eliminated, every hand has 3 cards, except that a player at
    stage DREW holds 4, and only the acting player can be at stage DREW. *)
Definition turnInv (st : GameState) : Prop :=
  noneEliminated (players st)
  ∧ ∀ i p, players st !! i = Some p →
           length (hand p) = (if isDrew p then 4 else 3)%nat
           ∧ (isDrew p = true → i = turnIndex st).

(** The property as the specification words it: after [startHand] on the table
    [s0], and in every state with an active hand that the actions [acts]
    reach from there, every non-eliminated player holds exactly 3 cards. *)
Definition threeCardsEach (st : GameState) : Prop :=
  ∀ p, p ∈ players st → eliminated p = false → length (hand p) = 3%nat.

Definition three_cards_claim (s0 : GameState) (acts : list (string * Action))
  : Prop :=
  ∀ s1, startHand s0 = Some s1 →
        threeCardsEach s1
        ∧ (activePhase (phase (run s1 acts)) → threeCardsEach (run s1 acts)).

(** A table on which seat "c" has been eliminated. *)
Definition lobby_c_out : GameState :=
  lobby [seat "a" "Ann" HUMAN 3; seat "b" "Bob" CPU 2; seat "c" "Cy" CPU 0] 0 7.

(** The hand [startHand] deals to [lobby_c_out]: seat "b" holds 6 cards. *)
Definition table_c_out : GameState :=
  Eval vm_compute in default lobby_c_out (startHand lobby_c_out).

(** * Properties *)

(** ** Hand values (section 4.2 of the specification) *)

Lemma rank_eqb_eq (a b : Rank) : rank_eqb a b = true ↔ a = b.
Proof. destruct a, b; cbv; split; congruence. Qed.

Lemma rankValue_pos (r : Rank) : 2 <= rankValue r <= 11.
Proof. destruct r; simpl; lia. Qed.

Lemma perm3_cases {A} (a b c : A) (l : list A) :
  [a; b; c] ≡ₚ l →
  l = [a; b; c] ∨ l = [a; c; b] ∨ l = [b; a; c] ∨
  l = [b; c; a] ∨ l = [c; a; b] ∨ l = [c; b; a].
Proof.
  intros HP.
  apply Permutation_cons_inv_l in HP as (k1 & k2 & -> & HP).
  assert (Hlen : length (k1 ++ k2) = 2%nat) by (rewrite <- HP; reflexivity).
  apply Permutation_length_2_inv in HP.
  destruct k1 as [|x1 [|x2 [|x3 k1]]]; simpl in *;
    destruct HP as [HP | HP]; try discriminate;
    try (injection HP as -> ->); try (injection HP as ->); subst; auto 10;
    try (destruct k2; discriminate).
  all: rewrite length_app in Hlen; simpl in Hlen; lia.
Qed.

Lemma suitSum_cons (s : Suit) (c : Card) (h : list Card) :
  suitSum s (c :: h)
  = (if suit_eqb (suit c) s then rankValue (rank c) else 0) + suitSum s h.
Proof.
  unfold suitSum. rewrite filter_cons.
  destruct (decide (suit c = s)) as [<- | Hne].
  - destruct (suit c); reflexivity.
  - destruct (suit c), s; try congruence; simpl; lia.
Qed.

Lemma suitSum_nonneg (s : Suit) (h : list Card) : 0 <= suitSum s h.
Proof.
  induction h as [|c h IH]; [reflexivity|].
  rewrite suitSum_cons. pose proof (rankValue_pos (rank c)).
  destruct (suit_eqb (suit c) s); lia.
Qed.

(** The accumulator of the source holds the four per-suit sums. *)
Lemma fold_addToSuit (h : list Card) (acc : SuitSums) :
  fold_left addToSuit h acc
  = mkSums (sumS acc + suitSum SuitS h) (sumH acc + suitSum SuitH h)
           (sumD acc + suitSum SuitD h) (sumC acc + suitSum SuitC h).
Proof.
  revert acc. induction h as [|c h IH]; intros acc.
  - destruct acc. simpl. change (suitSum _ []) with 0. f_equal; lia.
  - simpl. rewrite IH, !suitSum_cons. unfold addToSuit.
    destruct (suit c); simpl; f_equal; lia.
Qed.

Lemma bestSuitSum_spec (h : list Card) : bestSuitSum h = bestSameSuitSum h.
Proof.
  unfold bestSuitSum, sumsBySuit, bestSameSuitSum, maxOf, maxList.
  rewrite fold_addToSuit. simpl.
  pose proof (suitSum_nonneg SuitS h). pose proof (suitSum_nonneg SuitH h).
  pose proof (suitSum_nonneg SuitD h). pose proof (suitSum_nonneg SuitC h).
  lia.
Qed.

Lemma naturalValue_spec (a b c : Card) :
  Z.max (bestSuitSum [a; b; c])
        (maxOf (rankValue (rank a)) [rankValue (rank b); rankValue (rank c)])
  = Z.max (bestSameSuitSum [a; b; c]) (bestSingleCard [a; b; c]).
Proof.
  rewrite bestSuitSum_spec. f_equal.
  unfold maxOf, bestSingleCard, maxList. simpl.
  pose proof (rankValue_pos (rank a)); pose proof (rankValue_pos (rank b));
    pose proof (rankValue_pos (rank c)).
  lia.
Qed.

Lemma handValue_unfold (a b c : Card) (rules : Rules) :
  handValue [a; b; c] rules =
  match threeOfKindValue rules with
  | Some v =>
      if rank_eqb (rank a) (rank b) && rank_eqb (rank b) (rank c) then v
      else inject_Z (Z.max (bestSameSuitSum [a; b; c]) (bestSingleCard [a; b; c]))
  | None => inject_Z (Z.max (bestSameSuitSum [a; b; c]) (bestSingleCard [a; b; c]))
  end.
Proof.
  unfold handValue. rewrite naturalValue_spec. reflexivity.
Qed.

Lemma allSameRank_three (a b c : Card) :
  rank_eqb (rank a) (rank b) && rank_eqb (rank b) (rank c) = true
  ↔ allSameRank [a; b; c].
Proof.
  rewrite andb_true_iff, !rank_eqb_eq. unfold allSameRank. split.
  - intros [Hab Hbc] x y Hx Hy.
    rewrite !elem_of_cons, elem_of_nil in Hx, Hy.
    destruct Hx as [-> | [-> | [-> | []]]], Hy as [-> | [-> | [-> | []]]];
      congruence.
  - intros H. split; apply H; rewrite !elem_of_cons; auto.
Qed.

Lemma suitSum_perm (s : Suit) (h h' : list Card) :
  h ≡ₚ h' → suitSum s h = suitSum s h'.
Proof.
  intros HP. unfold suitSum.
  induction HP as [| x l l' HP IH | x y l | l1 l2 l3 HP1 IH1 HP2 IH2].
  - reflexivity.
  - rewrite !filter_cons. destruct (decide (suit x = s)); simpl; lia.
  - rewrite !filter_cons.
    destruct (decide (suit x = s)), (decide (suit y = s)); simpl; lia.
  - congruence.
Qed.

Lemma maxList_perm (l l' : list Z) : l ≡ₚ l' → maxList l = maxList l'.
Proof.
  unfold maxList.
  induction 1 as [| x l l' HP IH | x y l | l1 l2 l3 HP1 IH1 HP2 IH2];
    simpl; try lia; congruence.
Qed.

(** C8. On a 3-card hand [handValue] does not depend on the order of the
    cards; when the three ranks are identical and [threeOfKindValue] is
    configured it is exactly the configured value; otherwise it is the
    maximum of the best same-suit sum of [rankValue] and the best single
    card's [rankValue]. *)
Theorem handValue_three_cards (h h' : list Card) (rules : Rules) :
  length h = 3%nat →
  h ≡ₚ h' →
  handValue h' rules = handValue h rules
  ∧ (∀ v, threeOfKindValue rules = Some v → allSameRank h → handValue h rules = v)
  ∧ (¬ (is_Some (threeOfKindValue rules) ∧ allSameRank h) →
     handValue h rules = inject_Z (Z.max (bestSameSuitSum h) (bestSingleCard h))).
Proof.
  intros Hlen HP.
  destruct h as [|a [|b [|c [|]]]]; try discriminate. clear Hlen.
  split; [| split].
  - assert (Hh' : ∃ a' b' c', h' = [a'; b'; c']).
    { destruct (perm3_cases _ _ _ _ HP) as [-> | [-> | [-> | [-> | [-> | ->]]]]];
        eauto. }
    destruct Hh' as (a' & b' & c' & ->).
    rewrite !handValue_unfold.
    assert (Hs : bestSameSuitSum [a'; b'; c'] = bestSameSuitSum [a; b; c]).
    { unfold bestSameSuitSum. simpl.
      rewrite !(suitSum_perm _ _ _ HP). reflexivity. }
    assert (Hb : bestSingleCard [a'; b'; c'] = bestSingleCard [a; b; c]).
    { unfold bestSingleCard. apply maxList_perm.
      apply fmap_Permutation. symmetry. exact HP. }
    assert (Hr : rank_eqb (rank a') (rank b') && rank_eqb (rank b') (rank c')
                 = (rank_eqb (rank a) (rank b) && rank_eqb (rank b) (rank c))).
    { apply eq_true_iff_eq. rewrite !allSameRank_three. unfold allSameRank.
      split; intros H x y Hx Hy; apply H;
        first [by rewrite HP | by rewrite <- HP]. }
    rewrite Hs, Hb, Hr. reflexivity.
  - intros v Hv Hsame. rewrite handValue_unfold, Hv.
    apply allSameRank_three in Hsame. rewrite Hsame. reflexivity.
  - intros Hnot. rewrite handValue_unfold.
    destruct (threeOfKindValue rules) as [v|] eqn:Hv; [| reflexivity].
    destruct (rank_eqb (rank a) (rank b) && rank_eqb (rank b) (rank c)) eqn:Hr;
      [| reflexivity].
    exfalso. apply Hnot. split; [eauto | by apply allSameRank_three].
Qed.

Lemma handValue_three_cards_witness :
  handValue (reverse queens) defaultRules = handValue queens defaultRules
  ∧ (∀ v, threeOfKindValue defaultRules = Some v → allSameRank queens →
          handValue queens defaultRules = v)
  ∧ (¬ (is_Some (threeOfKindValue defaultRules) ∧ allSameRank queens) →
     handValue queens defaultRules
     = inject_Z (Z.max (bestSameSuitSum queens) (bestSingleCard queens))).
Proof.
  apply (handValue_three_cards queens (reverse queens) defaultRules).
  - reflexivity.
  - symmetry. apply reverse_Permutation.
Defined.

(** ** Basic facts about the helpers *)

Lemma pop_length {A} (l : list A) (x : A) (r : list A) :
  pop l = Some (x, r) → length l = S (length r).
Proof.
  revert x r. induction l as [|y l IH]; intros x r H; simpl in H; [discriminate|].
  destruct (pop l) as [[z r']|] eqn:Hp.
  - injection H as <- <-. simpl. f_equal. eauto.
  - injection H as <- <-. destruct l; [reflexivity|].
    simpl in Hp. destruct (pop l) as [[? ?]|]; discriminate.
Qed.

Lemma pop_None {A} (l : list A) : pop l = None ↔ l = [].
Proof.
  split; [| intros ->; reflexivity].
  destruct l as [|x l]; [reflexivity|]. simpl.
  destruct (pop l) as [[? ?]|]; discriminate.
Qed.

Lemma pop_app {A} (l : list A) (x : A) : pop (l ++ [x]) = Some (x, l).
Proof.
  induction l as [|y l IH]; [reflexivity|]. simpl. rewrite IH. reflexivity.
Qed.

Lemma pop_snoc {A} (l : list A) (x : A) (r : list A) :
  pop l = Some (x, r) → l = r ++ [x].
Proof.
  revert x r. induction l as [|y l IH]; intros x r H; simpl in H; [discriminate|].
  destruct (pop l) as [[z r']|] eqn:Hp.
  - injection H as <- <-. simpl. f_equal. eauto.
  - injection H as <- <-. apply pop_None in Hp. subst. reflexivity.
Qed.

Lemma findIndex_Some {A} (f : A → bool) (l : list A) (i : nat) :
  findIndex f l = Some i → ∃ x, l !! i = Some x ∧ f x = true.
Proof.
  revert i. induction l as [|y l IH]; intros i H; simpl in H; [discriminate|].
  destruct (f y) eqn:Hf.
  - injection H as <-. eauto.
  - destruct (findIndex f l) as [j|]; [| discriminate].
    injection H as <-. simpl. eauto.
Qed.

Lemma map_alter_same {A B} (g : A → B) (f : A → A) (i : nat) (l : list A) :
  (∀ x, g (f x) = g x) → map g (alter f i l) = map g l.
Proof.
  intros Hg. revert i. induction l as [|x l IH]; intros [|i]; simpl;
    try reflexivity.
  - by rewrite Hg.
  - f_equal. apply IH.
Qed.

Lemma alter_insert_same {A} (f : A → A) (i : nat) (l : list A) (x y : A) :
  l !! i = Some y → f x = f y → alter f i (<[i := x]> l) = alter f i l.
Proof.
  revert i. induction l as [|z l IH]; intros [|i] Hl Hf; simpl in *;
    try discriminate.
  - injection Hl as ->. rewrite Hf. reflexivity.
  - f_equal. eauto.
Qed.

Lemma hand_initStage (p : Player) : hand (initStage p) = hand p.
Proof. unfold initStage. destruct (turnStage p); reflexivity. Qed.

Lemma p_id_initStage (p : Player) : p_id (initStage p) = p_id p.
Proof. unfold initStage. destruct (turnStage p); reflexivity. Qed.

Lemma eliminated_initStage (p : Player) : eliminated (initStage p) = eliminated p.
Proof. unfold initStage. destruct (turnStage p); reflexivity. Qed.

Lemma setTurn_initStage (p : Player) :
  setTurn None None None (initStage p) = setTurn None None None p.
Proof. unfold initStage. destruct (turnStage p); reflexivity. Qed.

(** ** The knock (section 4.3) *)

(** C10. A successful KNOCK sets the phase to KNOCKED and changes, besides
    [knockedBy], [finalTurnsLeft], [turnIndex] and the log, only the
    turn-scoped fields of the knocker (the seat at the old [turnIndex]):
    every hand, life count and eliminated flag, the stock, the discard pile,
    [dealerIndex], [winnerId] and the seed are unchanged. *)
Theorem knock_frame (s s' : GameState) (playerId : string) :
  applyAction s playerId KNOCK = (s', Ok) →
  phase s' = KNOCKED
  ∧ players s' = alter (setTurn None None None) (turnIndex s) (players s)
  ∧ map hand (players s') = map hand (players s)
  ∧ map lives (players s') = map lives (players s)
  ∧ map eliminated (players s') = map eliminated (players s)
  ∧ map p_id (players s') = map p_id (players s)
  ∧ stock s' = stock s
  ∧ discard s' = discard s
  ∧ dealerIndex s' = dealerIndex s
  ∧ winnerId s' = winnerId s
  ∧ seed s' = seed s
  ∧ rules s' = rules s
  ∧ roomId s' = roomId s.
Proof.
  unfold applyAction. intros H.
  destruct (negb (phase_eqb (phase s) PLAYING) && negb (phase_eqb (phase s) KNOCKED));
    [discriminate|].
  destruct (players s !! turnIndex s) as [p0|] eqn:Hp0; [| discriminate].
  destruct (negb (String.eqb (p_id p0) playerId)); [discriminate|].
  destruct (eliminated p0); [discriminate|].
  cbv zeta in H.
  destruct (negb (isStart (initStage p0))); [discriminate|].
  destruct (negb (canKnock _ playerId)); [discriminate|].
  injection H as <-. cbn [advanceTurn players setTurnIndex setPlayers pushLog setLog
    setFinalTurnsLeft setPhase setKnockedBy putCurrent turnIndex phase stock discard
    dealerIndex winnerId seed rules roomId].
  rewrite (alter_insert_same _ _ _ _ p0 Hp0 (setTurn_initStage p0)).
  repeat split; try reflexivity; apply map_alter_same; intros []; reflexivity.
Qed.

(** ** Sample tables used to exercise the theorems *)

Lemma table3_dealt : startHand lobby3 = Some table3.
Proof. vm_compute. reflexivity. Qed.

Lemma table3_drew_ok : applyAction table3 "b" DRAW_STOCK = (table3_drew, Ok).
Proof. vm_compute. reflexivity. Qed.

Lemma knock_frame_witness :
  let s' := fst (applyAction table3 "b" KNOCK) in
  phase s' = KNOCKED
  ∧ players s' = alter (setTurn None None None) (turnIndex table3) (players table3)
  ∧ map hand (players s') = map hand (players table3)
  ∧ map lives (players s') = map lives (players table3)
  ∧ map eliminated (players s') = map eliminated (players table3)
  ∧ map p_id (players s') = map p_id (players table3)
  ∧ stock s' = stock table3
  ∧ discard s' = discard table3
  ∧ dealerIndex s' = dealerIndex table3
  ∧ winnerId s' = winnerId table3
  ∧ seed s' = seed table3
  ∧ rules s' = rules table3
  ∧ roomId s' = roomId table3.
Proof.
  apply (knock_frame table3 (fst (applyAction table3 "b" KNOCK)) "b").
  vm_compute. reflexivity.
Defined.

(** ** The hand-size check of DISCARD *)

Lemma findIndex_None {A} (f : A → bool) (l : list A) :
  findIndex f l = None → ∀ x, x ∈ l → f x = false.
Proof.
  induction l as [|y l IH]; intros H x Hx; [by apply elem_of_nil in Hx|].
  simpl in H. destruct (f y) eqn:Hf; [discriminate|].
  destruct (findIndex f l); [discriminate|].
  apply elem_of_cons in Hx as [-> | Hx]; eauto.
Qed.

(** C9. When the acting, non-eliminated player is at stage DREW and holds
    exactly 4 cards, a DISCARD of a held card other than the one taken from
    the discard pile this turn is never answered with the rejection
    "Internal error: hand size not 3."; while the hand is active the discard
    is accepted. *)
Theorem discard_no_internal_error
    (s : GameState) (p : Player) (playerId cardId : string) :
  players s !! turnIndex s = Some p →
  p_id p = playerId →
  eliminated p = false →
  turnStage p = Some DREW →
  length (hand p) = 4%nat →
  (∃ c, c ∈ hand p ∧ card_id c = cardId) →
  tookDiscardId p ≠ Some cardId →
  snd (applyAction s playerId (DISCARD cardId)) ≠ Rejected internalError
  ∧ (phase s = PLAYING ∨ phase s = KNOCKED →
     snd (applyAction s playerId (DISCARD cardId)) = Ok).
Proof.
  intros Hp Hid Hel Hst Hlen (c0 & Hc0 & Hc0id) Htook.
  unfold applyAction.
  destruct (negb (phase_eqb (phase s) PLAYING) && negb (phase_eqb (phase s) KNOCKED))
    eqn:Hph.
  { split; [simpl; discriminate|].
    intros [Hq | Hq]; rewrite Hq in Hph; discriminate. }
  rewrite Hp, Hid, String.eqb_refl, Hel. cbv zeta.
  assert (Hinit : initStage p = p) by (unfold initStage; by rewrite Hst).
  assert (Hdrew : isDrew p = true) by (unfold isDrew; by rewrite Hst).
  rewrite Hinit, Hdrew. simpl negb. cbv iota.
  destruct (findIndex _ (hand p)) as [idx|] eqn:Hidx.
  2:{ apply findIndex_None with (x := c0) in Hidx; [| exact Hc0].
      rewrite Hc0id, String.eqb_refl in Hidx. discriminate. }
  rewrite (bool_decide_eq_false_2 _ Htook), andb_false_r.
  apply findIndex_Some in Hidx as (c & Hc & _).
  assert (Hdel : length (delete idx (hand p)) = 3%nat).
  { rewrite length_delete by eauto. lia. }
  simpl hand at 1. rewrite Hdel. simpl negb. cbv iota.
  repeat match goal with
         | |- context [if ?b then _ else _] => destruct b
         end; simpl; (split; [discriminate | reflexivity]).
Qed.

Lemma discard_no_internal_error_witness :
  snd (applyAction table3_drew "b" (DISCARD "S2-12")) ≠ Rejected internalError
  ∧ (phase table3_drew = PLAYING ∨ phase table3_drew = KNOCKED →
     snd (applyAction table3_drew "b" (DISCARD "S2-12")) = Ok).
Proof.
  apply (discard_no_internal_error table3_drew bob_drew "b" "S2-12").
  - vm_compute. reflexivity.
  - vm_compute. reflexivity.
  - vm_compute. reflexivity.
  - vm_compute. reflexivity.
  - vm_compute. reflexivity.
  - exists (mkCard SuitS R2 "S2-12"). split; [| reflexivity].
    vm_compute. apply list_elem_of_here.
  - vm_compute. discriminate.
Defined.

(** ** The perspective view (section 6) *)

Lemma revealAll_spec (state : GameState) :
  revealAll state = true ↔ revealPhase (phase state).
Proof.
  unfold revealAll, revealPhase.
  destruct (phase state); simpl; split; intros H; try discriminate; auto;
    destruct H as [H | [H | H]]; discriminate.
Qed.

Lemma isViewer_spec (viewerId : option string) (p : Player) :
  isViewer viewerId p = true ↔ viewerIs viewerId p ∧ p_id p ≠ "".
Proof.
  unfold isViewer, viewerIs, truthy.
  rewrite andb_true_iff, bool_decide_eq_true.
  destruct viewerId as [v|]; [| split; intros [H ?]; discriminate].
  rewrite negb_true_iff. split.
  - intros [Hne Heq]. split; [exact Heq|].
    injection Heq as ->. by apply String.eqb_neq.
  - intros [Heq Hne]. split; [| exact Heq].
    injection Heq as ->. by apply String.eqb_neq.
Qed.

(** C6, as the code has it. Every seat's entry exposes id, name, type,
    lives, eliminated and handCount. The full hand is present exactly when
    the viewer is that seat (a non-empty viewer id equal to the seat's id) or
    the phase is SHOWDOWN, HAND_OVER or GAME_OVER. The computed hand value is
    present exactly when the phase is SHOWDOWN, HAND_OVER or GAME_OVER: in
    the other phases no value is sent, not even for the viewer's own seat. *)
Theorem view_reveals (state : GameState) (viewerId : option string)
    (i : nat) (p : Player) :
  players state !! i = Some p →
  ∃ sv,
    cv_players (makeClientView state viewerId) !! i = Some sv
    ∧ sv_id sv = p_id p ∧ sv_name sv = p_name p ∧ sv_type sv = p_type p
    ∧ sv_lives sv = lives p ∧ sv_eliminated sv = eliminated p
    ∧ handCount sv = length (hand p)
    ∧ (revealedHand sv = Some (hand p)
       ↔ (viewerIs viewerId p ∧ p_id p ≠ "") ∨ revealPhase (phase state))
    ∧ (revealedHand sv = None
       ↔ ¬ ((viewerIs viewerId p ∧ p_id p ≠ "") ∨ revealPhase (phase state)))
    ∧ (revealedValue sv = Some (handValue (hand p) (rules state))
       ↔ revealPhase (phase state))
    ∧ (revealedValue sv = None ↔ ¬ revealPhase (phase state)).
Proof.
  intros Hp. exists (seatView state viewerId p).
  split.
  { unfold makeClientView. simpl. change map with (@fmap list _) at 1.
    rewrite list_lookup_fmap, Hp. reflexivity. }
  unfold seatView. simpl.
  rewrite <- isViewer_spec, <- revealAll_spec.
  repeat split; try reflexivity;
    destruct (revealAll state), (isViewer viewerId p); simpl;
    intros; try discriminate; try tauto; try (intros [? | ?]; discriminate);
    match goal with H : _ ∨ _ |- _ => destruct H; discriminate end.
Qed.

Lemma view_reveals_witness :
  ∃ sv,
    cv_players (makeClientView table3_drew (Some "a")) !! 1%nat = Some sv
    ∧ sv_id sv = p_id bob_drew ∧ sv_name sv = p_name bob_drew
    ∧ sv_type sv = p_type bob_drew
    ∧ sv_lives sv = lives bob_drew ∧ sv_eliminated sv = eliminated bob_drew
    ∧ handCount sv = length (hand bob_drew)
    ∧ (revealedHand sv = Some (hand bob_drew)
       ↔ (viewerIs (Some "a") bob_drew ∧ p_id bob_drew ≠ "")
         ∨ revealPhase (phase table3_drew))
    ∧ (revealedHand sv = None
       ↔ ¬ ((viewerIs (Some "a") bob_drew ∧ p_id bob_drew ≠ "")
            ∨ revealPhase (phase table3_drew)))
    ∧ (revealedValue sv = Some (handValue (hand bob_drew) (rules table3_drew))
       ↔ revealPhase (phase table3_drew))
    ∧ (revealedValue sv = None ↔ ¬ revealPhase (phase table3_drew)).
Proof.
  apply (view_reveals table3_drew (Some "a") 1%nat bob_drew).
  vm_compute. reflexivity.
Defined.

(** The stated property fails for the viewer's own seat during play: seat "b" of
    [table3] gets its hand but no value in its own view. *)
Lemma own_value_not_revealed : ¬ reveals_hand_and_value_iff table3 (Some "b").
Proof.
  intros H.
  destruct (players table3 !! 1%nat) as [p|] eqn:Hp; [| vm_compute in Hp; discriminate].
  destruct (cv_players (makeClientView table3 (Some "b")) !! 1%nat) as [sv|] eqn:Hsv;
    [| vm_compute in Hsv; discriminate].
  specialize (H 1%nat p sv Hp Hsv).
  destruct H as [_ H].
  vm_compute in Hp. injection Hp as <-.
  vm_compute in Hsv. injection Hsv as <-.
  destruct H as [_ Hval]; [left; reflexivity|].
  vm_compute in Hval. discriminate.
Qed.

(** ** The CPU policy (section 4.5) *)

Lemma duel_dealt : startHand duel_lobby = Some duel.
Proof. vm_compute. reflexivity. Qed.

Lemma duel_knocked_ok : applyAction duel "a" KNOCK = (duel_knocked, Ok).
Proof. vm_compute. reflexivity. Qed.

(** Whenever the CPU's hand reaches its knock threshold the policy stops
    after the KNOCK attempt, whatever its outcome. *)
Lemma cpu_only_attempts_knock (rnd : nat → Q) (room : Room) (p : Player) :
  cpuToAct (room_state room) = Some p →
  Qle_bool (knockThreshold (cpuDifficulty room))
           (handValue (hand p) (rules (room_state room))) = true →
  maybeRunCpuTurn rnd room =
    (fst (applyAction (room_state room) (p_id p) KNOCK),
     match snd (applyAction (room_state room) (p_id p) KNOCK) with
     | Ok => [KNOCK]
     | Rejected _ => []
     end).
Proof.
  unfold cpuToAct, maybeRunCpuTurn. intros Hp Hv.
  destruct (negb (phase_eqb (phase (room_state room)) PLAYING)
            && negb (phase_eqb (phase (room_state room)) KNOCKED)); [discriminate|].
  destruct (players (room_state room) !! turnIndex (room_state room)) as [q|];
    [| discriminate].
  destruct (eliminated q || match p_type q with CPU => false | HUMAN => true end);
    [discriminate|].
  injection Hp as ->. cbv zeta. rewrite Hv.
  destruct (applyAction (room_state room) (p_id p) KNOCK) as [s' []]; reflexivity.
Qed.

(** C7, the behaviour of the code at an input where the stated policy is not followed. In
    [duel_knocked] the phase is KNOCKED (the human knocked), it is the turn
    of the CPU seat "b", whose hand is worth 25, the threshold of the hard
    tier. Knocking is not legal, and the policy performs no action at all:
    no draw, no discard, and the turn stays with the CPU. *)
Theorem cpu_skips_final_turn (rnd : nat → Q) :
  let room := mkRoom duel_knocked hard in
  phase duel_knocked = KNOCKED
  ∧ (∃ p, cpuToAct duel_knocked = Some p ∧ p_id p = "b"
          ∧ handValue (hand p) (rules duel_knocked) = 25%Q)
  ∧ canKnock duel_knocked "b" = false
  ∧ snd (maybeRunCpuTurn rnd room) = []
  ∧ existsb isDraw (snd (maybeRunCpuTurn rnd room)) = false
  ∧ turnIndex (fst (maybeRunCpuTurn rnd room)) = turnIndex duel_knocked
  ∧ phase (fst (maybeRunCpuTurn rnd room)) = KNOCKED.
Proof.
  cbv zeta.
  split; [reflexivity|]. split.
  { eexists. split; [vm_compute; reflexivity|]. split; reflexivity. }
  split; [reflexivity|].
  repeat split; vm_compute; reflexivity.
Qed.

(** ** Rejections (sections 6 and 7) *)

Lemma length_swap {A} (l : list A) (i j : nat) : length (swap l i j) = length l.
Proof.
  unfold swap. destruct (l !! i), (l !! j); try reflexivity.
  rewrite !length_insert. reflexivity.
Qed.

Lemma length_shuffleLoop {A} (i : nat) (s : Z) (l : list A) :
  length (shuffleLoop i s l) = length l.
Proof.
  revert s l. induction i as [|i IH]; intros s l; [reflexivity|].
  simpl. rewrite IH. apply length_swap.
Qed.

Lemma length_shuffleInPlace {A} (l : list A) (sd : Z) :
  length (shuffleInPlace l sd) = length l.
Proof. apply length_shuffleLoop. Qed.

Lemma setPlayers_id (s : GameState) : setPlayers (players s) s = s.
Proof. destruct s. reflexivity. Qed.

Lemma putCurrent_id (s : GameState) (p : Player) :
  players s !! turnIndex s = Some p → putCurrent p s = s.
Proof.
  intros H. unfold putCurrent. rewrite list_insert_id by exact H.
  apply setPlayers_id.
Qed.

(** A successful refill leaves a non-empty stock. *)
Lemma refill_stock_nonempty (s s' : GameState) :
  refillStockFromDiscard s = (s', true) → stock s' ≠ [].
Proof.
  unfold refillStockFromDiscard.
  destruct (length (discard s) <=? 1)%nat eqn:Hlen; [discriminate|].
  destruct (pop (discard s)) as [[top recycle]|] eqn:Hpop; [| discriminate].
  intros H. injection H as <-. simpl.
  apply pop_length in Hpop. apply Nat.leb_gt in Hlen.
  intros Hnil. apply (f_equal length) in Hnil.
  rewrite length_shuffleInPlace in Hnil. simpl in Hnil. lia.
Qed.

Lemma refill_false (s s' : GameState) :
  refillStockFromDiscard s = (s', false) → s' = s.
Proof.
  unfold refillStockFromDiscard.
  destruct (length (discard s) <=? 1)%nat; [congruence|].
  destruct (pop (discard s)) as [[top recycle]|]; congruence.
Qed.

Lemma initStage_effect (s : GameState) (p0 : Player) :
  players s !! turnIndex s = Some p0 →
  stageInitOnly s (putCurrent (initStage p0) s).
Proof.
  intros Hp0. unfold stageInitOnly, initStage.
  destruct (turnStage p0) eqn:Hst.
  - left. by apply putCurrent_id.
  - right. exists p0. auto.
Qed.

Lemma rejection_stageInitOnly (s s' : GameState) (playerId : string) (a : Action)
    (e : string) :
  applyAction s playerId a = (s', Rejected e) →
  e ≠ internalError →
  stageInitOnly s s'.
Proof.
  unfold applyAction. intros H He.
  destruct (negb (phase_eqb (phase s) PLAYING) && negb (phase_eqb (phase s) KNOCKED));
    [left; congruence|].
  destruct (players s !! turnIndex s) as [p0|] eqn:Hp0; [| left; congruence].
  destruct (negb (String.eqb (p_id p0) playerId)); [left; congruence|].
  destruct (eliminated p0); [left; congruence|].
  cbv zeta in H.
  pose proof (initStage_effect s p0 Hp0) as Hinit.
  destruct a as [| | cardId |].
  - (* DRAW_STOCK *)
    destruct (negb (isStart (initStage p0))); [congruence|].
    destruct (length (stock (putCurrent (initStage p0) s)) =? 0)%nat eqn:Hempty.
    + destruct (refillStockFromDiscard (putCurrent (initStage p0) s))
        as [s1 ok] eqn:Hrefill.
      destruct ok; simpl in H.
      * apply refill_stock_nonempty in Hrefill.
        destruct (pop (stock s1)) as [[c rest]|] eqn:Hpop; [discriminate|].
        apply pop_None in Hpop. contradiction.
      * apply refill_false in Hrefill. congruence.
    + simpl in H.
      destruct (pop (stock s)) as [[c rest]|] eqn:Hpop; [discriminate|].
      congruence.
  - (* DRAW_DISCARD *)
    destruct (negb (isStart (initStage p0))); [congruence|].
    destruct (pop (discard (putCurrent (initStage p0) s))) as [[c rest]|];
      [discriminate | congruence].
  - (* DISCARD *)
    destruct (negb (isDrew (initStage p0))); [congruence|].
    destruct (findIndex _ (hand (initStage p0))) as [idx|]; [| congruence].
    destruct (truthy _ && bool_decide _); [congruence|].
    destruct (negb (length (hand (setHand _ (initStage p0))) =? 3)%nat).
    { injection H as _ <-. exfalso. apply He. reflexivity. }
    repeat match type of H with
           | context [if ?b then _ else _] => destruct b
           end; discriminate.
  - (* KNOCK *)
    destruct (negb (isStart (initStage p0))); [congruence|].
    destruct (negb (canKnock _ playerId)); [congruence | discriminate].
Qed.

(** C2, as the code has it. A rejection other than the internal hand-size
    error leaves the state as it was, except that it may have initialised
    the acting player's unset [turnStage] to START: every hand, life count
    and eliminated flag, [drawnCardId] and [tookDiscardId], the stock, the
    discard pile, the log, the seed, the phase, [turnIndex], [knockedBy] and
    [finalTurnsLeft] are unchanged. *)
Theorem rejection_effect (s s' : GameState) (playerId : string) (a : Action)
    (e : string) :
  applyAction s playerId a = (s', Rejected e) →
  e ≠ internalError →
  s' = s
  ∨ ∃ p, players s !! turnIndex s = Some p
         ∧ turnStage p = None
         ∧ s' = putCurrent (setTurn (Some START) (drawnCardId p) (tookDiscardId p) p) s.
Proof. exact (rejection_stageInitOnly s s' playerId a e). Qed.

Lemma rejection_effect_witness :
  fst (applyAction table3 "b" (DISCARD "S2-12")) = table3
  ∨ ∃ p, players table3 !! turnIndex table3 = Some p
         ∧ turnStage p = None
         ∧ fst (applyAction table3 "b" (DISCARD "S2-12"))
           = putCurrent (setTurn (Some START) (drawnCardId p) (tookDiscardId p) p)
                        table3.
Proof.
  apply (rejection_effect table3 _ "b" (DISCARD "S2-12") "You must draw first.").
  - vm_compute. reflexivity.
  - vm_compute. discriminate.
Defined.

(** A DISCARD before any draw is rejected with "You must draw first.", yet
    the call has set the acting player's [turnStage] from unset to START. *)
Lemma rejected_discard_sets_stage :
  ¬ rejection_keeps_state table3 "b" (DISCARD "S2-12").
Proof.
  intros H. specialize (H "You must draw first." eq_refl).
  vm_compute in H. discriminate.
Qed.

(** The internal hand-size error is raised after the card has left the
    hand. On [table_c_out], where seat "b" was dealt 6 cards, "b" draws and
    then discards: the discard is rejected, yet the hand has gone from 7 to
    6 cards and the discard pile from 1 to 2. *)
Lemma internal_error_changes_state :
  let s1 := fst (applyAction table_c_out "b" DRAW_STOCK) in
  let r := applyAction s1 "b" (DISCARD "S2-12") in
  snd r = Rejected internalError
  ∧ (length ∘ hand <$> players s1 !! 1%nat) = Some 7%nat
  ∧ (length ∘ hand <$> players (fst r) !! 1%nat) = Some 6%nat
  ∧ length (discard s1) = 1%nat
  ∧ length (discard (fst r)) = 2%nat.
Proof. repeat split; vm_compute; reflexivity. Qed.

(** ** Showdown scoring (section 4.4) *)

Lemma fold_Qmin_le (vs : list Q) (v x : Q) :
  x ∈ v :: vs → (fold_left Qmin vs v <= x)%Q.
Proof.
  revert v x. induction vs as [|w vs IH]; intros v x Hx; simpl.
  - apply list_elem_of_singleton in Hx as ->. apply Qle_refl.
  - apply elem_of_cons in Hx as [-> | Hx].
    + eapply Qle_trans; [apply IH, list_elem_of_here | apply Q.le_min_l].
    + apply elem_of_cons in Hx as [-> | Hx].
      * eapply Qle_trans; [apply IH, list_elem_of_here | apply Q.le_min_r].
      * apply IH. by apply list_elem_of_further.
Qed.

Lemma Qmin_cases (x y : Q) : Qmin x y = x ∨ Qmin x y = y.
Proof.
  unfold Qmin, GenericMinMax.gmin. destruct (x ?= y)%Q; auto.
Qed.

Lemma fold_Qmin_in (vs : list Q) (v : Q) : fold_left Qmin vs v ∈ v :: vs.
Proof.
  revert v. induction vs as [|w vs IH]; intros v; simpl.
  - apply list_elem_of_here.
  - specialize (IH (Qmin v w)).
    apply elem_of_cons in IH as [IH | IH].
    + rewrite IH. destruct (Qmin_cases v w) as [-> | ->].
      * apply list_elem_of_here.
      * apply list_elem_of_further, list_elem_of_here.
    + by do 2 apply list_elem_of_further.
Qed.

Lemma lowestb_spec (s : GameState) (p : Player) :
  lowestb s p = true
  ↔ eliminated p = false
    ∧ ∀ q, q ∈ players s → eliminated q = false → (score s p <= score s q)%Q.
Proof.
  unfold lowestb. rewrite andb_true_iff, negb_true_iff, forallb_forall.
  split; intros [He H]; (split; [exact He|]).
  - intros q Hq Hqe. specialize (H q (proj1 (list_elem_of_In _ _) Hq)).
    rewrite Hqe in H. by apply Qle_bool_iff.
  - intros q Hq. destruct (eliminated q) eqn:Hqe; [reflexivity|].
    apply Qle_bool_iff, H; [by apply list_elem_of_In | exact Hqe].
Qed.

(** The ids the source collects in [lowest] are those of the tied-lowest
    players. *)
Lemma lowestIds_spec (s : GameState) :
  lowestIds (showdownScores s) = map p_id (tiedLowest s).
Proof.
  unfold lowestIds, showdownScores, tiedLowest.
  set (act := filter (fun p => eliminated p = false) (players s)).
  destruct (map snd (map (fun p => (p_id p, handValue (hand p) (rules s))) act))
    as [|v vs] eqn:Hvs.
  { destruct act as [|a act'] eqn:Hact; [| discriminate].
    symmetry. apply (f_equal (map p_id) (y := [])).
    apply elem_of_nil_inv. intros p Hp.
    apply list_elem_of_filter in Hp as [Hl Hp].
    apply lowestb_spec in Hl as [He _].
    assert (H : p ∈ act) by (apply list_elem_of_filter; auto).
    rewrite Hact in H. by apply elem_of_nil in H. }
  cbv zeta. set (m := fold_left Qmin vs v).
  assert (Hscores : ∀ x, x ∈ v :: vs ↔ ∃ q, q ∈ players s ∧ eliminated q = false
                                          ∧ x = score s q).
  { intros x. rewrite <- Hvs, map_map. simpl.
    change (map ?f ?l) with (f <$> l). rewrite list_elem_of_fmap.
    split.
    - intros (q & -> & Hq). apply list_elem_of_filter in Hq as [? ?]. eauto.
    - intros (q & Hq & He & ->). exists q. split; [reflexivity|].
      apply list_elem_of_filter. auto. }
  assert (Hlow : ∀ p, p ∈ players s → eliminated p = false →
                      (Qeq_bool (score s p) m = true ↔ lowestb s p = true)).
  { intros p Hp He. rewrite Qeq_bool_iff, lowestb_spec. split.
    - intros Heq. split; [exact He|]. intros q Hq Hqe.
      rewrite Heq. apply fold_Qmin_le, Hscores. eauto.
    - intros [_ Hall].
      destruct (proj1 (Hscores m) (fold_Qmin_in vs v)) as (q & Hq & Hqe & Hm).
      apply Qle_antisym.
      + rewrite Hm. by apply Hall.
      + apply fold_Qmin_le, Hscores. eauto. }
  clear Hvs Hscores. subst act.
  induction (players s) as [|p ps IH]; [reflexivity|].
  rewrite !filter_cons.
  assert (IH' := IH (fun q Hq => Hlow q (list_elem_of_further _ _ _ Hq))).
  specialize (Hlow p (list_elem_of_here _ _)).
  destruct (decide (eliminated p = false)) as [He | He].
  - simpl. rewrite filter_cons. simpl.
    destruct (decide (Qeq_bool (handValue (hand p) (rules s)) m = true)) as [Hm | Hm];
      destruct (decide (lowestb s p = true)) as [Hl | Hl]; simpl.
    + f_equal. exact IH'.
    + exfalso. apply Hl, Hlow; auto.
    + exfalso. apply Hm. apply Hlow; auto.
    + exact IH'.
  - destruct (decide (lowestb s p = true)) as [Hl | Hl].
    + exfalso. apply He. by apply lowestb_spec in Hl as [? _].
    + exact IH'.
Qed.

Lemma p_id_loseLives (n : Z) (p : Player) : p_id (loseLives n p) = p_id p.
Proof.
  unfold loseLives. destruct (eliminated p); [reflexivity|].
  destruct (lives p - n <=? 0); reflexivity.
Qed.

Lemma uniqueIds_inj (ps : list Player) (p q : Player) :
  NoDup (map p_id ps) → p ∈ ps → q ∈ ps → p_id p = p_id q → p = q.
Proof.
  induction ps as [|x ps IH]; intros Hnd Hp Hq Hid; [by apply elem_of_nil in Hp|].
  simpl in Hnd. apply NoDup_cons in Hnd as [Hx Hnd].
  apply elem_of_cons in Hp as [-> | Hp]; apply elem_of_cons in Hq as [-> | Hq];
    auto.
  - exfalso. apply Hx. rewrite Hid.
    change (map p_id ps) with (p_id <$> ps). by apply list_elem_of_fmap_2.
  - exfalso. apply Hx. rewrite <- Hid.
    change (map p_id ps) with (p_id <$> ps). by apply list_elem_of_fmap_2.
Qed.

(** With unique ids, updating the player found by id updates every player
    carrying that id. *)
Lemma alterFirst_unique (ps : list Player) (pid : string) (f : Player → Player) :
  NoDup (map p_id ps) →
  alterFirst (fun p => String.eqb (p_id p) pid) f ps
  = map (fun p => if String.eqb (p_id p) pid then f p else p) ps.
Proof.
  induction ps as [|x ps IH]; intros Hnd; [reflexivity|].
  simpl in Hnd. apply NoDup_cons in Hnd as [Hx Hnd]. simpl.
  destruct (String.eqb (p_id x) pid) eqn:Hid.
  - f_equal. apply String.eqb_eq in Hid. subst pid.
    change (map ?f ps) with (f <$> ps).
    rewrite <- (list_fmap_id ps) at 1. apply list_fmap_ext.
    intros i y Hy. destruct (String.eqb (p_id y) (p_id x)) eqn:Hyx; [| reflexivity].
    exfalso. apply Hx. apply String.eqb_eq in Hyx. rewrite <- Hyx.
    change (map p_id ps) with (p_id <$> ps).
    eapply list_elem_of_fmap_2, list_elem_of_lookup_2, Hy.
  - f_equal. by apply IH.
Qed.

Lemma players_penalise (line : string → LogLine) (n : Z) (st : GameState)
    (pid : string) :
  players (penalise line n st pid)
  = alterFirst (fun p => String.eqb (p_id p) pid) (loseLives n) (players st).
Proof. reflexivity. Qed.

(** A loop that penalises the ids of [L], except those it skips. *)
Lemma players_fold_penalise (step : GameState → string → GameState)
    (skip : string → bool) (n : Z) (L : list string) :
  (∀ st pid, players (step st pid)
             = if skip pid then players st
               else alterFirst (fun p => String.eqb (p_id p) pid) (loseLives n)
                               (players st)) →
  NoDup L →
  ∀ st, NoDup (map p_id (players st)) →
  players (fold_left step L st)
  = map (fun p => if existsb (fun pid => negb (skip pid) && String.eqb (p_id p) pid) L
                  then loseLives n p else p) (players st).
Proof.
  intros Hstep. induction L as [|pid L IH]; intros HL st Hnd; simpl.
  { symmetry. apply map_id. }
  apply NoDup_cons in HL as [Hpid HL].
  assert (Hids : map p_id (players (step st pid)) = map p_id (players st)).
  { rewrite Hstep. destruct (skip pid); [reflexivity|].
    rewrite alterFirst_unique by exact Hnd. rewrite map_map.
    apply map_ext. intros p. destruct (String.eqb (p_id p) pid); [| reflexivity].
    apply p_id_loseLives. }
  rewrite IH; [| exact HL | by rewrite Hids].
  rewrite Hstep. destruct (skip pid) eqn:Hskip; simpl; [reflexivity|].
  rewrite alterFirst_unique by exact Hnd. rewrite map_map.
  apply map_ext. intros p.
  destruct (String.eqb (p_id p) pid) eqn:Hp; simpl; [| reflexivity].
  apply String.eqb_eq in Hp.
  assert (Hex : existsb (fun pid0 => negb (skip pid0)
                          && String.eqb (p_id (loseLives n p)) pid0) L = false).
  { apply not_true_is_false. intros Hex.
    apply existsb_exists in Hex as (x & Hx & Hc).
    apply andb_true_iff in Hc as [_ Hc]. apply String.eqb_eq in Hc.
    rewrite p_id_loseLives in Hc. apply Hpid. rewrite <- Hp, Hc.
    by apply list_elem_of_In. }
  rewrite Hex. reflexivity.
Qed.

Lemma tiedLowest_ids_NoDup (s : GameState) :
  uniqueIds s → NoDup (map p_id (tiedLowest s)).
Proof.
  intros Hnd. eapply sublist_NoDup; [exact Hnd|].
  change (map p_id ?l) with (p_id <$> l).
  apply fmap_sublist. unfold tiedLowest. apply sublist_filter.
Qed.

Lemma elem_of_tiedLowest (s : GameState) (p : Player) :
  p ∈ tiedLowest s ↔ lowestb s p = true ∧ p ∈ players s.
Proof.
  unfold tiedLowest.
  apply (list_elem_of_filter (fun q => lowestb s q = true)).
Qed.

(** Membership of a player's id in [lowest], for a loop that skips some
    ids. *)
Lemma in_lowestIds (s : GameState) (skip : string → bool) (p : Player) :
  uniqueIds s → p ∈ players s →
  existsb (fun pid => negb (skip pid) && String.eqb (p_id p) pid)
          (map p_id (tiedLowest s))
  = lowestb s p && negb (skip (p_id p)).
Proof.
  intros Hnd Hp. apply eq_true_iff_eq.
  rewrite existsb_exists, andb_true_iff. split.
  - intros (pid & Hpid & Hc). apply andb_true_iff in Hc as [Hskip Heq].
    apply String.eqb_eq in Heq. subst pid.
    apply list_elem_of_In in Hpid. change (map p_id ?l) with (p_id <$> l) in Hpid.
    apply list_elem_of_fmap in Hpid as (q & Hid & Hq).
    apply elem_of_tiedLowest in Hq as [Hlow Hq].
    assert (p = q) by (eapply uniqueIds_inj; eauto). subst q. auto.
  - intros [Hlow Hskip]. exists (p_id p). split.
    + apply list_elem_of_In. change (map p_id ?l) with (p_id <$> l).
      apply list_elem_of_fmap_2, elem_of_tiedLowest. auto.
    + by rewrite Hskip, String.eqb_refl.
Qed.

Lemma isKnockerb_eqb (s : GameState) (k : string) (p : Player) :
  knockedBy s = Some k → isKnockerb s p = String.eqb (p_id p) k.
Proof.
  intros Hk. unfold isKnockerb. rewrite Hk.
  destruct (String.eqb (p_id p) k) eqn:He.
  - apply String.eqb_eq in He. subst k. by apply bool_decide_eq_true_2.
  - apply String.eqb_neq in He. apply bool_decide_eq_false_2. congruence.
Qed.

Lemma knockerTied_ids (s : GameState) (k : string) :
  knockedBy s = Some k →
  existsb (String.eqb k) (map p_id (tiedLowest s)) = knockerTied s.
Proof.
  intros Hk. unfold knockerTied.
  induction (tiedLowest s) as [|q t IH]; [reflexivity|].
  simpl. rewrite IH, (isKnockerb_eqb s k q Hk), String.eqb_sym. reflexivity.
Qed.

Lemma soleLowestKnocker_ids (s : GameState) (k : string) :
  knockedBy s = Some k →
  match map p_id (tiedLowest s) with
  | [l0] => String.eqb l0 k
  | _ => false
  end = soleLowestKnocker s.
Proof.
  intros Hk. unfold soleLowestKnocker, knockerTied.
  destruct (tiedLowest s) as [|q [|q' t]]; simpl.
  - reflexivity.
  - rewrite (isKnockerb_eqb s k q Hk), orb_false_r, andb_true_r. reflexivity.
  - rewrite andb_false_r. reflexivity.
Qed.

Lemma players_finish (s : GameState) :
  players (settlePhase (finishElimsAndMaybeGameOver s)) = players s.
Proof.
  unfold settlePhase, finishElimsAndMaybeGameOver.
  destruct (filter _ (players s)) as [|w [|w' l]]; reflexivity.
Qed.

(** The players after [scoreShowdown], seat by seat. *)
Lemma scoreShowdown_players (s : GameState) :
  uniqueIds s →
  players (scoreShowdown s) = map (penalised s) (players s).
Proof.
  intros Hnd. unfold scoreShowdown. cbv zeta.
  rewrite players_finish, lowestIds_spec.
  pose proof (tiedLowest_ids_NoDup s Hnd) as HL.
  set (s0 := pushLog _ s).
  assert (Hs0 : players s0 = players s) by reflexivity.
  assert (Hfold : ∀ (step : GameState → string → GameState) (skip : string → bool),
    (∀ st pid, players (step st pid)
               = if skip pid then players st
                 else alterFirst (fun p => String.eqb (p_id p) pid) (loseLives 1)
                                 (players st)) →
    players (fold_left step (map p_id (tiedLowest s)) s0)
    = map (fun p => if lowestb s p && negb (skip (p_id p)) then loseLives 1 p else p)
          (players s)).
  { intros step skip Hstep.
    rewrite (players_fold_penalise step skip 1 _ Hstep HL s0) by (by rewrite Hs0).
    rewrite Hs0. change (map ?f ?l) with (f <$> l) at 1 3.
    apply list_fmap_ext. intros i p Hp.
    rewrite in_lowestIds; eauto using list_elem_of_lookup_2. }
  destruct (knockedBy s) as [k|] eqn:Hk.
  - rewrite (soleLowestKnocker_ids s k Hk), (knockerTied_ids s k Hk).
    destruct (soleLowestKnocker s) eqn:Hsole.
    + (* the knocker alone is lowest *)
      rewrite players_penalise, Hs0, alterFirst_unique by exact Hnd.
      change (map ?f ?l) with (f <$> l).
      apply list_fmap_ext. intros i p Hp. apply list_elem_of_lookup_2 in Hp.
      unfold penalised, penalty. rewrite Hsole.
      assert (Hiff : String.eqb (p_id p) k = lowestb s p).
      { unfold soleLowestKnocker, knockerTied in Hsole.
        destruct (tiedLowest s) as [|q [|q' t]] eqn:Ht; simpl in Hsole;
          try discriminate; [| by rewrite andb_false_r in Hsole].
        rewrite orb_false_r, andb_true_r, (isKnockerb_eqb s k q Hk) in Hsole.
        apply String.eqb_eq in Hsole.
        assert (Hq : q ∈ tiedLowest s) by (rewrite Ht; apply list_elem_of_here).
        apply elem_of_tiedLowest in Hq as [Hql Hq].
        apply eq_true_iff_eq. rewrite String.eqb_eq. split.
        - intros Hpk.
          assert (p = q)
            by (apply (uniqueIds_inj (players s)); [exact Hnd | exact Hp | exact Hq | congruence]).
          by subst.
        - intros Hpl. assert (Hpt : p ∈ tiedLowest s)
            by (apply elem_of_tiedLowest; auto).
          rewrite Ht in Hpt. apply list_elem_of_singleton in Hpt. by subst. }
      rewrite Hiff. destruct (lowestb s p); reflexivity.
    + destruct (knockerTied s) eqn:Htied.
      * (* a tie that includes the knocker *)
        rewrite (Hfold _ (fun pid => String.eqb pid k))
          by (intros st pid; destruct (String.eqb pid k); reflexivity).
        change (map ?f ?l) with (f <$> l).
        apply list_fmap_ext. intros i p Hp.
        unfold penalised, penalty. rewrite Hsole, Htied, (isKnockerb_eqb s k p Hk).
        destruct (lowestb s p && negb (String.eqb (p_id p) k)); reflexivity.
      * (* the knocker is not among the lowest *)
        rewrite (Hfold _ (fun _ => false)) by reflexivity.
        change (map ?f ?l) with (f <$> l).
        apply list_fmap_ext. intros i p Hp.
        unfold penalised, penalty. rewrite Hsole, Htied, andb_true_r.
        destruct (lowestb s p); reflexivity.
  - (* nobody knocked *)
    assert (Htied : knockerTied s = false).
    { unfold knockerTied. apply not_true_is_false. intros H.
      apply existsb_exists in H as (q & _ & Hq).
      unfold isKnockerb in Hq. rewrite Hk in Hq.
      apply bool_decide_eq_true in Hq. discriminate. }
    rewrite (Hfold _ (fun _ => false)) by reflexivity.
    change (map ?f ?l) with (f <$> l).
    apply list_fmap_ext. intros i p Hp.
    unfold penalised, penalty, soleLowestKnocker. rewrite Htied, andb_true_r.
    simpl. destruct (lowestb s p); reflexivity.
Qed.

Lemma loseLives_spec (n : Z) (p : Player) :
  eliminated p = false →
  loseLives n p = setLives (Z.max 0 (lives p - n)) (lives p - n <=? 0) p.
Proof.
  intros He. unfold loseLives. rewrite He.
  destruct (lives p - n <=? 0) eqn:Hle.
  - apply Z.leb_le in Hle. rewrite Z.max_l by lia. reflexivity.
  - apply Z.leb_gt in Hle. rewrite Z.max_r by lia. reflexivity.
Qed.

(** C3, as the code has it. With unique player ids and every non-eliminated
    player holding at least one life, [scoreShowdown] treats the player at
    each seat by the rule [penalty]: when the knocker alone is lowest, the
    knocker is charged 2 lives and nobody else is charged; otherwise, when
    the knocker is among the tied-lowest, every other tied-lowest player is
    charged 1 life and the knocker none; otherwise every tied-lowest player is
    charged 1 life and nobody else is charged. A charge of 1 takes exactly 1
    life; the charge of 2 takes 2 lives from a knocker who has them and the
    single remaining life from a knocker who has only 1 (lives never drop
    below 0); a player whose lives reach 0 is marked eliminated, and nothing
    else about any player changes. *)
Theorem showdown_losses (s : GameState) (i : nat) (p : Player) :
  uniqueIds s →
  livesConsistent s →
  players s !! i = Some p →
  ∃ p', players (scoreShowdown s) !! i = Some p'
        ∧ p' = setLives (lives p') (eliminated p') p
        ∧ (penalty s p = 0 → p' = p)
        ∧ (penalty s p = 1 → lives p' = lives p - 1)
        ∧ (penalty s p = 2 → lives p' = Z.max 0 (lives p - 2))
        ∧ (eliminated p' = true
           ↔ eliminated p = true ∨ lives p - penalty s p <= 0).
Proof.
  intros Hnd Hlives Hp.
  exists (penalised s p). split.
  { rewrite (scoreShowdown_players s Hnd).
    change (map ?f ?l) with (f <$> l). by rewrite list_lookup_fmap, Hp. }
  assert (Hin : p ∈ players s) by (eapply list_elem_of_lookup_2; eauto).
  specialize (Hlives p Hin).
  assert (Hpen : penalty s p = 0 ∨ lowestb s p = true
                                   ∧ (penalty s p = 1 ∨ penalty s p = 2)).
  { unfold penalty. destruct (soleLowestKnocker s), (knockerTied s),
      (lowestb s p), (isKnockerb s p); simpl; auto. }
  unfold penalised.
  destruct Hpen as [H0 | [Hlow Hn]].
  - rewrite H0. simpl. split; [by destruct p|].
    split; [reflexivity|]. split; [discriminate|]. split; [discriminate|].
    split; [by left|]. intros [He | Hle]; [exact He|].
    destruct (eliminated p); [reflexivity|]. specialize (Hlives eq_refl). lia.
  - apply lowestb_spec in Hlow as [He _]. specialize (Hlives He).
    rewrite (loseLives_spec _ _ He).
    assert (Hnz : (penalty s p =? 0) = false) by (apply Z.eqb_neq; lia).
    rewrite Hnz. simpl. split; [reflexivity|].
    split; [lia|]. split; [intros ->; lia|]. split; [intros ->; reflexivity|].
    rewrite Z.leb_le, He. split; [auto | intros [? | ?]; [discriminate | auto]].
Qed.

Lemma lastLife_reached :
  applyAction lastLife_drew "b" (DISCARD "C6-47")
  = (resetTurnStages (scoreShowdown lastLife_showdown), Ok).
Proof. vm_compute. reflexivity. Qed.

Lemma showdown_losses_witness :
  ∃ p', players (scoreShowdown lastLife_showdown) !! 0%nat = Some p'
        ∧ p' = setLives (lives p') (eliminated p') ann_lastLife
        ∧ (penalty lastLife_showdown ann_lastLife = 0 → p' = ann_lastLife)
        ∧ (penalty lastLife_showdown ann_lastLife = 1 →
           lives p' = lives ann_lastLife - 1)
        ∧ (penalty lastLife_showdown ann_lastLife = 2 →
           lives p' = Z.max 0 (lives ann_lastLife - 2))
        ∧ (eliminated p' = true
           ↔ eliminated ann_lastLife = true
             ∨ lives ann_lastLife - penalty lastLife_showdown ann_lastLife <= 0).
Proof.
  apply (showdown_losses lastLife_showdown 0%nat ann_lastLife).
  - unfold uniqueIds.
    apply (bool_decide_unpack (NoDup (map p_id (players lastLife_showdown)))).
    vm_compute. exact I.
  - unfold livesConsistent.
    apply (proj1 (Forall_forall (fun p => eliminated p = false → 1 <= lives p) _)).
    apply (bool_decide_unpack
             (Forall (fun p => eliminated p = false → 1 <= lives p)
                     (players lastLife_showdown))).
    vm_compute. exact I.
  - vm_compute. reflexivity.
Defined.

(** The knocker "a" is alone lowest, is charged 2 lives, and ends with 0
    lives having lost the single life it had. *)
Lemma sole_lowest_knocker_last_life : ¬ showdown_exact_losses lastLife_showdown.
Proof.
  intros H.
  specialize (H 0%nat ann_lastLife (loseLives 2 ann_lastLife)).
  vm_compute in H. specialize (H eq_refl eq_refl). discriminate.
Qed.

(** ** The turn: what a successful action does *)

Lemma applyAction_Ok_acting (s s' : GameState) (playerId : string) (a : Action) :
  applyAction s playerId a = (s', Ok) → ∃ p, acting s playerId p.
Proof.
  unfold applyAction, acting, activePhase. intros H.
  destruct (phase s) eqn:Hph; simpl in H; try discriminate;
    (destruct (players s !! turnIndex s) as [p0|]; [| discriminate];
     destruct (String.eqb (p_id p0) playerId) eqn:Hid; [| discriminate];
     destruct (eliminated p0) eqn:He; [discriminate|];
     apply String.eqb_eq in Hid; exists p0; auto).
Qed.

Lemma applyAction_acting (s : GameState) (playerId : string) (a : Action)
    (p0 : Player) :
  acting s playerId p0 →
  applyAction s playerId a =
    let p := initStage p0 in
    let state := putCurrent p s in
    match a with
    | KNOCK =>
        if negb (isStart p)
        then (state, Rejected "You can only knock at the start of your turn.")
        else if negb (canKnock state playerId)
        then (state, Rejected "Knock not allowed.")
        else
          (advanceTurn
             (pushLog (LogKnocks (p_name p))
                (setFinalTurnsLeft
                   (Z.of_nat (length (activePlayers
                      (setPhase KNOCKED (setKnockedBy (Some playerId) state)))) - 1)
                   (setPhase KNOCKED (setKnockedBy (Some playerId) state)))),
           Ok)
    | _ => applyAction s playerId a
    end.
Proof.
  intros (Hph & Hp & Hid & He). destruct a; try reflexivity.
  unfold applyAction.
  assert (Hg : negb (phase_eqb (phase s) PLAYING) && negb (phase_eqb (phase s) KNOCKED)
               = false) by (destruct Hph as [-> | ->]; reflexivity).
  rewrite Hg, Hp, Hid, String.eqb_refl, He. reflexivity.
Qed.

Lemma isDrew_initStage (p : Player) :
  isDrew (initStage p) = true → turnStage p = Some DREW.
Proof.
  unfold isDrew, initStage. destruct p as [? ? ? ? ? ? [[|]|] ? ?]; simpl;
    congruence.
Qed.

Lemma isStart_initStage (p : Player) :
  isStart (initStage p) = true → turnStage p = None ∨ turnStage p = Some START.
Proof.
  unfold isStart, initStage. destruct p as [? ? ? ? ? ? [[|]|] ? ?]; simpl;
    auto; congruence.
Qed.

Lemma discard_Ok_inv (s s' : GameState) (playerId cardId : string) :
  applyAction s playerId (DISCARD cardId) = (s', Ok) →
  ∃ p idx c,
    acting s playerId p
    ∧ turnStage p = Some DREW
    ∧ hand p !! idx = Some c
    ∧ card_id c = cardId
    ∧ length (hand p) = 4%nat
    ∧ discardOutcome s p idx c s'.
Proof.
  intros H.
  destruct (applyAction_Ok_acting _ _ _ _ H) as (p & Hact).
  pose proof Hact as (Hph & Hp & Hid & He).
  unfold applyAction in H.
  assert (Hg : negb (phase_eqb (phase s) PLAYING) && negb (phase_eqb (phase s) KNOCKED)
               = false) by (destruct Hph as [-> | ->]; reflexivity).
  rewrite Hg, Hp, Hid, String.eqb_refl, He in H. cbv zeta in H.
  destruct (isDrew (initStage p)) eqn:Hdrew; [| discriminate]. simpl negb in H.
  cbv iota in H.
  assert (Hst : turnStage p = Some DREW) by (by apply isDrew_initStage).
  assert (Hinit : initStage p = p) by (unfold initStage; by rewrite Hst).
  rewrite Hinit, (putCurrent_id s p Hp) in H.
  destruct (findIndex _ (hand p)) as [idx|] eqn:Hidx; [| discriminate].
  destruct (truthy _ && bool_decide _); [discriminate|].
  destruct (findIndex_Some _ _ _ Hidx) as (c & Hc & Hcid).
  apply String.eqb_eq in Hcid.
  rewrite Hc in H. simpl hand in H.
  destruct (length (delete idx (hand p)) =? 3)%nat eqn:Hlen; [| discriminate].
  apply Nat.eqb_eq in Hlen. simpl negb in H. cbv iota in H.
  exists p, idx, c. split; [exact Hact|].
  split; [exact Hst|]. split; [exact Hc|]. split; [exact Hcid|].
  split. { rewrite length_delete in Hlen by eauto. lia. }
  unfold discardOutcome. cbv zeta. simpl rules in H.
  destruct (hasExact31 (delete idx (hand p)) (rules s)) eqn:H31.
  { left. split; [reflexivity|]. injection H as <-. reflexivity. }
  right. split; [reflexivity|].
  simpl phase in H. destruct Hph as [Hph | Hph]; rewrite Hph in H; simpl in H.
  - right. right. split; [exact Hph|]. injection H as <-. reflexivity.
  - destruct (finalTurnsLeft s - 1 <=? 0) eqn:Hle.
    + left. apply Z.leb_le in Hle. split; [exact Hph|]. split; [exact Hle|].
      injection H as <-. reflexivity.
    + right. left. apply Z.leb_gt in Hle. split; [exact Hph|].
      split; [exact Hle|]. injection H as <-. reflexivity.
Qed.

(** ** Frame lemmas: what scoring and turn advance leave alone *)

Lemma fold_left_preserves {A B C} (f : A → C) (step : A → B → A)
    (L : list B) (a : A) :
  (∀ a b, f (step a b) = f a) → f (fold_left step L a) = f a.
Proof.
  intros Hstep. revert a. induction L as [|b L IH]; intros a; [reflexivity|].
  simpl. rewrite IH. apply Hstep.
Qed.

Lemma map_alterFirst_same {A B} (g : A → B) (t : A → bool) (f : A → A)
    (l : list A) :
  (∀ x, g (f x) = g x) → map g (alterFirst t f l) = map g l.
Proof.
  intros Hg. induction l as [|x l IH]; [reflexivity|]. simpl.
  destruct (t x); simpl; [by rewrite Hg | by rewrite IH].
Qed.

Lemma hand_loseLives (n : Z) (p : Player) : hand (loseLives n p) = hand p.
Proof.
  unfold loseLives. destruct (eliminated p); [reflexivity|].
  destruct (lives p - n <=? 0); reflexivity.
Qed.

(** [scoreShowdown] preserves every observation that its building blocks
    preserve. *)
Lemma scoreShowdown_frame {C} (f : GameState → C) (s : GameState) :
  (∀ st l, f (pushLog l st) = f st) →
  (∀ line n st pid, f (penalise line n st pid) = f st) →
  (∀ st, f (settlePhase (finishElimsAndMaybeGameOver st)) = f st) →
  f (scoreShowdown s) = f s.
Proof.
  intros Hlog Hpen Hfin. unfold scoreShowdown. cbv zeta. rewrite Hfin.
  destruct (knockedBy s) as [k|].
  - destruct (match lowestIds (showdownScores s) with
              | [l0] => String.eqb l0 k
              | _ => false
              end).
    + by rewrite Hpen, Hlog.
    + destruct (existsb (String.eqb k) (lowestIds (showdownScores s))).
      * rewrite fold_left_preserves; [apply Hlog|].
        intros st pid. destruct (String.eqb pid k); [reflexivity | apply Hpen].
      * rewrite fold_left_preserves; [apply Hlog | apply Hpen].
  - rewrite fold_left_preserves; [apply Hlog | apply Hpen].
Qed.

Lemma settle_finish_frame {C} (f : GameState → C) (st : GameState) :
  (∀ x ph, f (setPhase ph x) = f x) →
  (∀ x w, f (setWinnerId w x) = f x) →
  f (settlePhase (finishElimsAndMaybeGameOver st)) = f st.
Proof.
  intros Hph Hw. unfold settlePhase, finishElimsAndMaybeGameOver.
  rewrite Hph. destruct (filter _ (players st)) as [|w [|w' l]];
    rewrite ?Hph, Hw; reflexivity.
Qed.

Lemma hands_scoreShowdown (s : GameState) :
  map hand (players (scoreShowdown s)) = map hand (players s).
Proof.
  apply (scoreShowdown_frame (fun st => map hand (players st))).
  - reflexivity.
  - intros. simpl. apply map_alterFirst_same, hand_loseLives.
  - intros. by rewrite players_finish.
Qed.

Lemma rules_scoreShowdown (s : GameState) : rules (scoreShowdown s) = rules s.
Proof.
  apply (scoreShowdown_frame rules); try reflexivity.
  intros. by apply settle_finish_frame.
Qed.

Lemma hands_advanceTurn (s : GameState) :
  map hand (players (advanceTurn s)) = map hand (players s).
Proof. simpl. apply map_alter_same. reflexivity. Qed.

Lemma hands_resetTurnStages (s : GameState) :
  map hand (players (resetTurnStages s)) = map hand (players s).
Proof. simpl. rewrite map_map. reflexivity. Qed.

Lemma lookup_hands (l1 l2 : list Player) (i : nat) :
  map hand l1 = map hand l2 → hand <$> l1 !! i = hand <$> l2 !! i.
Proof.
  intros H. rewrite <- !list_lookup_fmap.
  change (hand <$> l1) with (map hand l1). by rewrite H.
Qed.

Lemma rules_setPlayers (ps : list Player) (s : GameState) :
  rules (setPlayers ps s) = rules s.
Proof. reflexivity. Qed.

Lemma rules_runShowdown (s : GameState) : rules (runShowdown s) = rules s.
Proof.
  unfold runShowdown, resetTurnStages.
  rewrite rules_setPlayers, rules_scoreShowdown. reflexivity.
Qed.

Lemma rules_declare31 (s : GameState) (p : Player) :
  rules (declare31 s p) = rules s.
Proof.
  unfold declare31, resetTurnStages.
  rewrite rules_setPlayers. by rewrite (settle_finish_frame rules).
Qed.

Lemma players_declare31 (s : GameState) (p : Player) :
  players (declare31 s p)
  = map (setTurn None None None)
        (map (fun op => if eliminated op then op
                        else if String.eqb (p_id op) (p_id p) then op
                        else loseLives 1 op) (players s)).
Proof.
  unfold declare31.
  change (players (resetTurnStages ?x)) with (map (setTurn None None None) (players x)).
  by rewrite players_finish.
Qed.

Lemma hands_declare31 (s : GameState) (p : Player) :
  map hand (players (declare31 s p)) = map hand (players s).
Proof.
  rewrite players_declare31, !map_map. apply map_ext. intros q. simpl.
  destruct (eliminated q); [reflexivity|].
  destruct (String.eqb (p_id q) (p_id p)); [reflexivity | apply hand_loseLives].
Qed.

(** After an accepted DISCARD the discarding seat holds its old hand minus
    the discarded card, whichever way the turn ends. *)
Lemma discardOutcome_hand (s s' : GameState) (p : Player) (idx : nat) (c : Card) :
  players s !! turnIndex s = Some p →
  discardOutcome s p idx c s' →
  rules s' = rules s
  ∧ hand <$> players s' !! turnIndex s = Some (delete idx (hand p)).
Proof.
  intros Hp Hout. unfold discardOutcome in Hout. cbv zeta in Hout.
  assert (Hh1 : hand <$> players (afterDiscard s p idx c) !! turnIndex s
                = Some (delete idx (hand p))).
  { simpl. rewrite list_lookup_insert_eq; [reflexivity|].
    eapply lookup_lt_Some, Hp. }
  assert (Hgoal : ∀ s'', rules s'' = rules s →
            map hand (players s'') = map hand (players (afterDiscard s p idx c)) →
            rules s'' = rules s
            ∧ hand <$> players s'' !! turnIndex s = Some (delete idx (hand p))).
  { intros s'' Hr Hm. split; [exact Hr|].
    apply (lookup_hands _ _ (turnIndex s)) in Hm. by rewrite Hm. }
  destruct Hout as [[_ ->] | [_ [(_ & _ & ->) | [(_ & _ & ->) | (_ & ->)]]]];
    apply Hgoal.
  - by rewrite rules_declare31.
  - by rewrite hands_declare31.
  - by rewrite rules_runShowdown.
  - unfold runShowdown. by rewrite hands_resetTurnStages, hands_scoreShowdown.
  - reflexivity.
  - by rewrite hands_advanceTurn.
  - reflexivity.
  - by rewrite hands_advanceTurn.
Qed.

(** ** A declared 31 (sections 4.3 and 8) *)

Lemma uniqueIds_index (s : GameState) (i j : nat) (p q : Player) :
  uniqueIds s → players s !! i = Some p → players s !! j = Some q →
  p_id p = p_id q → i = j.
Proof.
  intros Hnd Hp Hq Hid.
  apply (NoDup_lookup (map p_id (players s)) i j (p_id p) Hnd).
  - change (map p_id ?l) with (p_id <$> l). by rewrite list_lookup_fmap, Hp.
  - change (map p_id ?l) with (p_id <$> l). by rewrite list_lookup_fmap, Hq, Hid.
Qed.

Lemma filter_active_map (g : Player → Player) (l : list Player) :
  (∀ x, eliminated (g x) = eliminated x) →
  filter (fun p => eliminated p = false) (map g l)
  = map g (filter (fun p => eliminated p = false) l).
Proof.
  intros Hg. induction l as [|x l IH]; [reflexivity|]. simpl.
  rewrite !filter_cons, Hg.
  destruct (decide (eliminated x = false)); simpl; by rewrite IH.
Qed.

(** How a hand that ended by life loss settles its phase. *)
Lemma phase_settle (s : GameState) :
  idsNonEmpty s →
  phase (settlePhase (finishElimsAndMaybeGameOver s))
  = if decide (length (activePlayers s) = 1%nat) then GAME_OVER else HAND_OVER.
Proof.
  intros Hne. unfold settlePhase, finishElimsAndMaybeGameOver, activePlayers.
  destruct (filter _ (players s)) as [|w [|w' l]] eqn:Hf; simpl.
  - destruct (winnerId s); reflexivity.
  - assert (Hw : w ∈ players s).
    { assert (H : w ∈ filter (fun p => eliminated p = false) (players s))
        by (rewrite Hf; apply list_elem_of_here).
      by apply list_elem_of_filter in H as [_ ?]. }
    destruct (String.eqb (p_id w) "") eqn:He; [| reflexivity].
    exfalso. apply Hne. apply String.eqb_eq in He. rewrite <- He.
    change (map p_id ?l) with (p_id <$> l). by apply list_elem_of_fmap_2.
  - reflexivity.
Qed.

Lemma ids_declare31 (s : GameState) (p : Player) :
  map p_id (players (declare31 s p)) = map p_id (players s).
Proof.
  rewrite players_declare31, !map_map. apply map_ext. intros q. simpl.
  destruct (eliminated q); [reflexivity|].
  destruct (String.eqb (p_id q) (p_id p)); [reflexivity | apply p_id_loseLives].
Qed.

Lemma ids_afterDiscard (s : GameState) (p : Player) (idx : nat) (c : Card) :
  players s !! turnIndex s = Some p →
  map p_id (players (afterDiscard s p idx c)) = map p_id (players s).
Proof.
  intros Hp. simpl. change (map p_id ?l) with (p_id <$> l).
  rewrite list_fmap_insert. apply list_insert_id.
  by rewrite list_lookup_fmap, Hp.
Qed.

Lemma phase_declare31 (s : GameState) (p : Player) :
  idsNonEmpty s →
  phase (declare31 s p)
  = if decide (length (activePlayers (declare31 s p)) = 1%nat)
    then GAME_OVER else HAND_OVER.
Proof.
  intros Hne. unfold declare31.
  set (x := othersLoseOne _ _).
  assert (Hx : idsNonEmpty x).
  { unfold idsNonEmpty. replace (map p_id (players x)) with (map p_id (players s));
      [exact Hne|].
    subst x. simpl. rewrite map_map. apply map_ext. intros q.
    destruct (eliminated q); [reflexivity|].
    destruct (String.eqb (p_id q) (p_id p)); [reflexivity|].
    symmetry. apply p_id_loseLives. }
  change (phase (resetTurnStages ?y)) with (phase y).
  rewrite (phase_settle x Hx).
  assert (Hlen : length (activePlayers
                   (resetTurnStages (settlePhase (finishElimsAndMaybeGameOver x))))
                 = length (activePlayers x)).
  { unfold activePlayers, resetTurnStages.
    change (players (setPlayers ?ps ?st)) with ps.
    rewrite players_finish, filter_active_map by reflexivity.
    apply length_map. }
  rewrite Hlen. reflexivity.
Qed.

(** C4. An accepted DISCARD after which the discarding player's hand is
    worth exactly 31 ends the hand at once, whether or not somebody has
    knocked: every other non-eliminated player loses exactly 1 life (and is
    eliminated when it was the last), nobody else's lives change, the phase
    is GAME_OVER when exactly one survivor remains and HAND_OVER otherwise,
    the turn-stage bookkeeping of every player is cleared, and
    [finalTurnsLeft] and [knockedBy] are untouched (no final-turn countdown,
    no showdown). Ids are assumed unique and non-empty, and non-eliminated
    players to hold at least one life. *)
Theorem discard_to_31_ends_hand (s s' : GameState) (playerId cardId : string)
    (d : Player) :
  uniqueIds s →
  idsNonEmpty s →
  livesConsistent s →
  applyAction s playerId (DISCARD cardId) = (s', Ok) →
  players s' !! turnIndex s = Some d →
  hasExact31 (hand d) (rules s') = true →
  (∀ i q, i ≠ turnIndex s → players s !! i = Some q → eliminated q = false →
     ∃ q', players s' !! i = Some q'
           ∧ lives q' = lives q - 1
           ∧ (eliminated q' = true ↔ lives q = 1))
  ∧ (∀ i q, i = turnIndex s ∨ eliminated q = true → players s !! i = Some q →
       ∃ q', players s' !! i = Some q'
             ∧ lives q' = lives q ∧ eliminated q' = eliminated q)
  ∧ phase s' = (if decide (length (activePlayers s') = 1%nat)
                then GAME_OVER else HAND_OVER)
  ∧ (∀ q, q ∈ players s' → turnCleared q)
  ∧ finalTurnsLeft s' = finalTurnsLeft s
  ∧ knockedBy s' = knockedBy s.
Proof.
  intros Hnd Hne Hlives H Hd H31.
  destruct (discard_Ok_inv _ _ _ _ H)
    as (p & idx & c & Hact & Hst & Hc & Hcid & Hlen & Hout).
  destruct Hact as (Hph & Hp & Hid & He).
  destruct (discardOutcome_hand _ _ _ _ _ Hp Hout) as [Hrules Hhand].
  rewrite Hd in Hhand. injection Hhand as Hhand.
  rewrite Hhand, Hrules in H31.
  destruct Hout as [[_ ->] | [Hno _]]; [| congruence].
  clear H Hd Hrules.
  set (s1 := afterDiscard s p idx c).
  assert (Hs1 : ∀ i, i ≠ turnIndex s → players s1 !! i = players s !! i).
  { intros i Hi. simpl. by rewrite list_lookup_insert_ne. }
  assert (Hs1t : players s1 !! turnIndex s
                 = Some (setHand (delete idx (hand p)) p)).
  { simpl. rewrite list_lookup_insert_eq; [reflexivity|].
    eapply lookup_lt_Some, Hp. }
  assert (Hlook : ∀ i, players (declare31 s1 p) !! i
            = (fun op => setTurn None None None
                 (if eliminated op then op
                  else if String.eqb (p_id op) (p_id p) then op
                  else loseLives 1 op)) <$> players s1 !! i).
  { intros i. rewrite players_declare31, map_map.
    change (map ?f ?l) with (f <$> l). by rewrite list_lookup_fmap. }
  split; [| split; [| split; [| split; [| split]]]].
  - intros i q Hi Hq Hqe. rewrite Hlook, (Hs1 i Hi), Hq. simpl.
    rewrite Hqe.
    assert (Hidne : String.eqb (p_id q) (p_id p) = false).
    { apply String.eqb_neq. intros Heq. apply Hi.
      eapply uniqueIds_index; eauto. }
    rewrite Hidne, (loseLives_spec 1 q Hqe). eexists. split; [reflexivity|].
    assert (1 <= lives q) by (apply Hlives; eauto using list_elem_of_lookup_2).
    simpl. split; [lia|]. rewrite Z.leb_le. lia.
  - intros i q Hcase Hq. rewrite Hlook.
    destruct (decide (i = turnIndex s)) as [-> | Hi].
    + rewrite Hs1t. simpl. rewrite Hp in Hq. injection Hq as <-.
      rewrite He, String.eqb_refl. eexists. split; [reflexivity|]. by simpl.
    + destruct Hcase as [? | Hqe]; [contradiction|].
      rewrite (Hs1 i Hi), Hq. simpl. rewrite Hqe.
      eexists. split; [reflexivity|]. by simpl.
  - apply phase_declare31. unfold idsNonEmpty, s1.
    by rewrite (ids_afterDiscard s p idx c Hp).
  - intros q Hq. rewrite players_declare31 in Hq.
    change (map ?f ?l) with (f <$> l) in Hq.
    apply list_elem_of_fmap in Hq as (q0 & -> & _). by repeat split.
  - unfold declare31, resetTurnStages.
    change (finalTurnsLeft (setPlayers ?ps ?st)) with (finalTurnsLeft st).
    by rewrite (settle_finish_frame finalTurnsLeft).
  - unfold declare31, resetTurnStages.
    change (knockedBy (setPlayers ?ps ?st)) with (knockedBy st).
    by rewrite (settle_finish_frame knockedBy).
Qed.

Lemma final31_knocked : phase final31_drew = KNOCKED ∧ finalTurnsLeft final31_drew = 2.
Proof. split; reflexivity. Qed.

Lemma discard_to_31_ends_hand_witness :
  (∀ i q, i ≠ turnIndex final31_drew → players final31_drew !! i = Some q →
     eliminated q = false →
     ∃ q', players final31_end !! i = Some q'
           ∧ lives q' = lives q - 1
           ∧ (eliminated q' = true ↔ lives q = 1))
  ∧ (∀ i q, i = turnIndex final31_drew ∨ eliminated q = true →
       players final31_drew !! i = Some q →
       ∃ q', players final31_end !! i = Some q'
             ∧ lives q' = lives q ∧ eliminated q' = eliminated q)
  ∧ phase final31_end = (if decide (length (activePlayers final31_end) = 1%nat)
                         then GAME_OVER else HAND_OVER)
  ∧ (∀ q, q ∈ players final31_end → turnCleared q)
  ∧ finalTurnsLeft final31_end = finalTurnsLeft final31_drew
  ∧ knockedBy final31_end = knockedBy final31_drew.
Proof.
  apply (discard_to_31_ends_hand final31_drew final31_end "b" "S6-8" bob_31).
  - unfold uniqueIds.
    apply (bool_decide_unpack (NoDup (map p_id (players final31_drew)))).
    vm_compute. exact I.
  - unfold idsNonEmpty.
    apply (bool_decide_unpack ("" ∉ map p_id (players final31_drew))).
    vm_compute. exact I.
  - unfold livesConsistent.
    apply (proj1 (Forall_forall (fun p => eliminated p = false → 1 <= lives p) _)).
    apply (bool_decide_unpack
             (Forall (fun p => eliminated p = false → 1 <= lives p)
                     (players final31_drew))).
    vm_compute. exact I.
  - vm_compute. reflexivity.
  - vm_compute. reflexivity.
  - vm_compute. reflexivity.
Defined.

(** ** Actions that do not move the turn *)

Lemma sameTable_refl (s : GameState) : sameTable s s.
Proof. by constructor. Qed.

Lemma map_insert_same {A B} (g : A → B) (l : list A) (i : nat) (x : A) (b : B) :
  map g l !! i = Some b → g x = b → map g (<[i := x]> l) = map g l.
Proof.
  intros Hl Hx. change (map g ?k) with (g <$> k) in *.
  rewrite list_fmap_insert, Hx. by apply list_insert_id.
Qed.

Lemma sameTable_put (s s1 : GameState) (x p0 : Player) :
  sameTable s s1 →
  players s !! turnIndex s = Some p0 →
  p_id x = p_id p0 →
  eliminated x = eliminated p0 →
  sameTable s (putCurrent x s1).
Proof.
  intros [] Hp Hid He. constructor; simpl; try assumption.
  - rewrite <- st_ids0. apply map_insert_same with (b := p_id p0); [| exact Hid].
    rewrite st_ids0, st_turnIndex0. change (map p_id ?k) with (p_id <$> k).
    by rewrite list_lookup_fmap, Hp.
  - rewrite <- st_eliminated0.
    apply map_insert_same with (b := eliminated p0); [| exact He].
    rewrite st_eliminated0, st_turnIndex0. change (map eliminated ?k) with (eliminated <$> k).
    by rewrite list_lookup_fmap, Hp.
Qed.

Lemma sameTable_setStock (s s1 : GameState) (x : list Card) :
  sameTable s s1 → sameTable s (setStock x s1).
Proof. intros []. by constructor. Qed.

Lemma sameTable_setDiscard (s s1 : GameState) (x : list Card) :
  sameTable s s1 → sameTable s (setDiscard x s1).
Proof. intros []. by constructor. Qed.

Lemma sameTable_setSeed (s s1 : GameState) (x : Z) :
  sameTable s s1 → sameTable s (setSeed x s1).
Proof. intros []. by constructor. Qed.

Lemma sameTable_pushLog (s s1 : GameState) (x : LogLine) :
  sameTable s s1 → sameTable s (pushLog x s1).
Proof. intros []. by constructor. Qed.

Lemma sameTable_refill (s s1 : GameState) :
  sameTable s s1 → sameTable s (fst (refillStockFromDiscard s1)).
Proof.
  intros H. unfold refillStockFromDiscard.
  destruct (length (discard s1) <=? 1)%nat; [exact H|].
  destruct (pop (discard s1)) as [[top recycle]|]; [| exact H]. simpl.
  by apply sameTable_pushLog, sameTable_setDiscard, sameTable_setStock,
    sameTable_setSeed.
Qed.

Create HintDb table discriminated.

#[local] Hint Resolve sameTable_refl sameTable_put sameTable_setStock
  sameTable_setDiscard sameTable_setSeed sameTable_pushLog sameTable_refill
  p_id_initStage eliminated_initStage : table.

(** A rejection, whatever its reason, and an accepted draw keep the table. *)
Lemma applyAction_sameTable (s s' : GameState) (playerId : string) (a : Action)
    (r : Result) :
  applyAction s playerId a = (s', r) →
  r ≠ Ok ∨ isDrawAction a →
  sameTable s s'.
Proof.
  unfold applyAction. intros H Hr.
  destruct (negb (phase_eqb (phase s) PLAYING) && negb (phase_eqb (phase s) KNOCKED)).
  { injection H as <- _. auto with table. }
  destruct (players s !! turnIndex s) as [p0|] eqn:Hp0.
  2:{ injection H as <- _. auto with table. }
  destruct (negb (String.eqb (p_id p0) playerId)).
  { injection H as <- _. auto with table. }
  destruct (eliminated p0) eqn:He.
  { injection H as <- _. auto with table. }
  cbv zeta in H.
  assert (H0 : sameTable s (putCurrent (initStage p0) s)) by eauto with table.
  destruct a as [| | cardId |].
  - (* DRAW_STOCK *)
    destruct (negb (isStart (initStage p0))).
    { by injection H as <- _. }
    set (refilled := if (length (stock (putCurrent (initStage p0) s)) =? 0)%nat
                     then refillStockFromDiscard (putCurrent (initStage p0) s)
                     else (putCurrent (initStage p0) s, true)) in *.
    assert (H1 : sameTable s (fst refilled)).
    { subst refilled. destruct (_ =? _)%nat; auto with table. }
    destruct (negb (snd refilled)). { by injection H as <- _. }
    destruct (pop (stock (fst refilled))) as [[c rest]|].
    + injection H as <- _.
      apply sameTable_pushLog, (sameTable_put _ _ _ p0); auto with table;
        simpl; auto with table.
    + by injection H as <- _.
  - (* DRAW_DISCARD *)
    destruct (negb (isStart (initStage p0))).
    { by injection H as <- _. }
    destruct (pop (discard (putCurrent (initStage p0) s))) as [[c rest]|].
    + injection H as <- _.
      apply sameTable_pushLog, (sameTable_put _ _ _ p0); auto with table;
        simpl; auto with table.
    + by injection H as <- _.
  - (* DISCARD *)
    destruct Hr as [Hr | [Hr | Hr]]; try discriminate.
    destruct (negb (isDrew (initStage p0))). { by injection H as <- _. }
    destruct (findIndex _ (hand (initStage p0))) as [idx|].
    2:{ by injection H as <- _. }
    destruct (truthy _ && bool_decide _). { by injection H as <- _. }
    destruct (negb (length (hand (setHand _ (initStage p0))) =? 3)%nat).
    { injection H as <- _.
      assert (H1 : sameTable s
                (putCurrent (setHand (delete idx (hand (initStage p0))) (initStage p0))
                            (putCurrent (initStage p0) s)))
        by (apply (sameTable_put _ _ _ p0); auto with table; simpl; auto with table).
      destruct (hand (initStage p0) !! idx); auto with table. }
    repeat match type of H with
           | context [if ?b then _ else _] => destruct b
           end; injection H as _ <-; contradiction.
  - (* KNOCK *)
    destruct Hr as [Hr | [Hr | Hr]]; try discriminate.
    destruct (negb (isStart (initStage p0))). { by injection H as <- _. }
    destruct (negb (canKnock _ playerId)); [by injection H as <- _|].
    injection H as _ <-. contradiction.
Qed.

(** ** Turn order around the table *)

Lemma flags_lookup (ps : list Player) (i : nat) (b : bool) :
  flags ps !! i = Some b ↔ ∃ p, ps !! i = Some p ∧ eliminated p = b.
Proof.
  unfold flags. change (map eliminated ps) with (eliminated <$> ps).
  rewrite list_lookup_fmap. destruct (ps !! i) as [p|]; simpl.
  - split; [intros [= <-]; eauto | intros (q & [= <-] & <-); reflexivity].
  - split; [discriminate | intros (q & ? & _); discriminate].
Qed.

(** The loop of [nextActiveIndex] stops at the first seat, counted from
    [fromIndex + step], that is not eliminated. *)
Lemma nextActiveFrom_first (ps : list Player) (fromIndex : nat) (d : nat) :
  ∀ step fuel,
    (∀ j, step ≤ j < step + d →
          flags ps !! ((fromIndex + j) mod length ps) = Some true)%nat →
    flags ps !! ((fromIndex + step + d) mod length ps)%nat = Some false →
    (d < fuel)%nat →
    nextActiveFrom ps fromIndex step fuel = ((fromIndex + step + d) mod length ps)%nat.
Proof.
  induction d as [|d IH]; intros step fuel Hskip Hstop Hfuel;
    (destruct fuel as [|fuel]; [lia|]); simpl.
  - rewrite Nat.add_0_r in *.
    apply flags_lookup in Hstop as (p & -> & ->). reflexivity.
  - assert (Hhere : flags ps !! ((fromIndex + step) mod length ps)%nat = Some true)
      by (apply Hskip; lia).
    apply flags_lookup in Hhere as (p & -> & ->). simpl.
    rewrite (IH (S step) fuel).
    + f_equal. lia.
    + intros j Hj. apply Hskip. lia.
    + rewrite <- Hstop. f_equal. f_equal. lia.
    + lia.
Qed.

(** In a list with an entry satisfying [P] there is a first one, and
    dropping the entries before it loses no entry satisfying [P]. *)
Lemma first_match {A} (P : A → Prop) `{!∀ x, Decision (P x)} (l : list A) :
  (1 ≤ length (filter P l))%nat →
  ∃ d x, l !! d = Some x ∧ P x
         ∧ (∀ j y, (j < d)%nat → l !! j = Some y → ¬ P y)
         ∧ filter P (drop d l) = filter P l.
Proof.
  induction l as [|a l IH]; intros Hlen; [simpl in Hlen; lia|].
  rewrite filter_cons in *. destruct (decide (P a)) as [Ha | Ha].
  - exists 0%nat, a. repeat split; auto.
    + intros j y Hj. lia.
    + simpl. rewrite filter_cons. by rewrite decide_True.
  - destruct (IH Hlen) as (d & x & Hx & HP & Hbefore & Hdrop).
    exists (S d), x. repeat split; auto.
    intros [|j] y Hj Hy; simpl in Hy.
    + by injection Hy as <-.
    + eapply Hbefore; [| exact Hy]. lia.
Qed.

Lemma rotate_nat_add_mod (base offset len : nat) :
  rotate_nat_add base offset len = ((base + offset) mod len)%nat.
Proof.
  unfold rotate_nat_add. destruct len as [|len].
  - simpl. rewrite Z.mod_0_r. lia.
  - rewrite <- Nat2Z.inj_add, <- Nat2Z.inj_mod. apply Nat2Z.id.
Qed.

Lemma lookup_rotate_mod {A} (l : list A) (k i : nat) :
  (i < length l)%nat → rotate k l !! i = l !! ((k + i) mod length l)%nat.
Proof. intros Hi. by rewrite lookup_rotate_r, rotate_nat_add_mod. Qed.

Lemma length_filter_rotate {A} (P : A → Prop) `{!∀ x, Decision (P x)}
    (k : nat) (l : list A) :
  length (filter P (rotate k l)) = length (filter P l).
Proof.
  unfold rotate. generalize (k mod length l)%nat. intros m.
  rewrite filter_app, length_app.
  rewrite <- (take_drop m l) at 3. rewrite filter_app, length_app. lia.
Qed.

Lemma activeFrom_total (ps : list Player) (k : nat) :
  activeFrom ps k 0 = length (filter (fun p => eliminated p = false) ps).
Proof.
  unfold activeFrom. rewrite drop_0, length_filter_rotate. unfold flags.
  induction ps as [|p ps IH]; [reflexivity|]. simpl.
  rewrite !filter_cons.
  destruct (decide (eliminated p = false)); simpl; by rewrite IH.
Qed.

(** From the seat at distance [o] of [k], the turn passes to the first
    seat further on that is still in the game, provided there is one before
    coming back to [k]. *)
Lemma nextActive_rotation (ps : list Player) (k o : nat) :
  (k < length ps)%nat → (o < length ps)%nat →
  (1 ≤ activeFrom ps k (S o))%nat →
  ∃ o', (o < o' < length ps)%nat
        ∧ nextActiveFrom ps ((k + o) mod length ps) 1 (length ps)
          = ((k + o') mod length ps)%nat
        ∧ activeFrom ps k o' = activeFrom ps k (S o)
        ∧ flags ps !! ((k + o') mod length ps)%nat = Some false.
Proof.
  intros Hk Ho Hact. unfold activeFrom in *.
  assert (Hlen : length (flags ps) = length ps) by apply length_map.
  set (R := rotate k (flags ps)) in *.
  assert (HR : ∀ i, (i < length ps)%nat →
                    R !! i = flags ps !! ((k + i) mod length ps)%nat).
  { intros i Hi. subst R. rewrite lookup_rotate_mod; rewrite Hlen; auto. }
  destruct (first_match _ _ Hact) as (d & x & Hx & -> & Hbefore & Hdrop).
  rewrite lookup_drop in Hx.
  assert (Hd : (S o + d < length ps)%nat).
  { apply lookup_lt_Some in Hx. subst R. rewrite length_rotate, Hlen in Hx. lia. }
  exists (S o + d)%nat. split; [lia|]. split; [| split].
  - rewrite (nextActiveFrom_first ps _ d 1 (length ps)).
    + rewrite <- Nat.add_assoc, Nat.Div0.add_mod_idemp_l. f_equal. lia.
    + intros j Hj. rewrite Nat.Div0.add_mod_idemp_l.
      rewrite <- Nat.add_assoc, <- HR by lia.
      destruct (R !! (o + j)%nat) as [[|]|] eqn:Hj'.
      * reflexivity.
      * exfalso. apply (Hbefore (j - 1)%nat false); [lia | | reflexivity].
        rewrite lookup_drop. rewrite <- Hj'. f_equal. lia.
      * apply lookup_ge_None in Hj'. subst R.
        rewrite length_rotate, Hlen in Hj'. lia.
    + rewrite <- Nat.add_assoc, Nat.Div0.add_mod_idemp_l.
      replace (k + o + (1 + d))%nat with (k + (S o + d))%nat by lia.
      by rewrite <- HR.
    + lia.
  - rewrite <- Hdrop, drop_drop. reflexivity.
  - by rewrite <- HR.
Qed.

(** ** The final turns after a knock (sections 3, 4.3 and 8) *)

Lemma countdown_sameTable (st st' : GameState) (m : nat) :
  countdown st m → sameTable st st' → countdown st' m.
Proof.
  intros (Hnd & Hph & Hleft & Hm & k & pk & o & Hk & Hkn & Ho & Ht & Hact) [].
  assert (Hlen : length (players st') = length (players st)).
  { apply (f_equal length) in st_ids0. by rewrite !length_map in st_ids0. }
  assert (Hk' : ∃ pk', players st' !! k = Some pk' ∧ p_id pk' = p_id pk).
  { assert (H : (p_id <$> players st') !! k = Some (p_id pk)).
    { change (p_id <$> players st') with (map p_id (players st')).
      rewrite st_ids0. change (map p_id ?l) with (p_id <$> l).
      by rewrite list_lookup_fmap, Hk. }
    rewrite list_lookup_fmap in H.
    destruct (players st' !! k) as [pk'|]; [| discriminate].
    injection H as H. eauto. }
  destruct Hk' as (pk' & Hk' & Hid).
  split; [by unfold uniqueIds; rewrite st_ids0|].
  split; [congruence|]. split; [congruence|]. split; [exact Hm|].
  exists k, pk', o. rewrite Hlen, st_knockedBy0, st_turnIndex0, Hid.
  unfold activeFrom, flags. rewrite st_eliminated0. auto.
Qed.

Lemma mod_offset_ne (k o n : nat) :
  (k < n)%nat → (1 ≤ o < n)%nat → ((k + o) mod n ≠ k)%nat.
Proof.
  intros Hk Ho. destruct (decide (k + o < n)%nat).
  - rewrite Nat.mod_small; lia.
  - replace (k + o)%nat with ((k + o - n) + 1 * n)%nat by lia.
    rewrite Nat.Div0.mod_add, Nat.mod_small; lia.
Qed.

(** During the countdown the acting player is never the knocker. *)
Lemma countdown_not_knocker (st : GameState) (m : nat) (playerId : string)
    (p : Player) :
  countdown st m → acting st playerId p → knockedBy st ≠ Some playerId.
Proof.
  intros (Hnd & _ & _ & _ & k & pk & o & Hk & Hkn & Ho & Ht & _)
         (_ & Hp & Hid & _) Heq.
  rewrite Hkn in Heq. injection Heq as Heq.
  assert (turnIndex st = k).
  { eapply uniqueIds_index; eauto. congruence. }
  apply lookup_lt_Some in Hk.
  pose proof (mod_offset_ne k o _ Hk Ho). congruence.
Qed.

Lemma activeFrom_step (ps : list Player) (k o : nat) :
  (k < length ps)%nat → (o < length ps)%nat →
  flags ps !! ((k + o) mod length ps)%nat = Some false →
  activeFrom ps k o = S (activeFrom ps k (S o)).
Proof.
  intros Hk Ho Hflag. unfold activeFrom.
  assert (Hlen : length (flags ps) = length ps) by apply length_map.
  assert (HR : rotate k (flags ps) !! o = Some false).
  { rewrite lookup_rotate_mod; rewrite Hlen; auto. }
  rewrite (drop_S _ _ _ HR), filter_cons. by rewrite decide_True.
Qed.

(** [advanceTurn] hands the turn to the next seat still in the game and
    takes one seat off the number left before the knocker. *)
Lemma advanceTurn_offset (x : GameState) (k o m : nat) :
  (k < length (players x))%nat →
  (o < length (players x))%nat →
  turnIndex x = ((k + o) mod length (players x))%nat →
  flags (players x) !! turnIndex x = Some false →
  activeFrom (players x) k o = S m →
  (1 ≤ m)%nat →
  ∃ o', (1 ≤ o' < length (players (advanceTurn x)))%nat
        ∧ turnIndex (advanceTurn x)
          = ((k + o') mod length (players (advanceTurn x)))%nat
        ∧ activeFrom (players (advanceTurn x)) k o' = m.
Proof.
  intros Hk Ho Ht Hflag Hact Hm.
  set (ps' := alter (setTurn None None None) (turnIndex x) (players x)).
  assert (Hflags : flags ps' = flags (players x)).
  { unfold flags, ps'. apply map_alter_same. reflexivity. }
  assert (Hlen : length ps' = length (players x)) by apply length_alter.
  assert (Hrest : activeFrom (players x) k (S o) = m).
  { assert (H := activeFrom_step (players x) k o Hk Ho).
    rewrite <- Ht in H. specialize (H Hflag). lia. }
  assert (Hsame : ∀ j, activeFrom ps' k j = activeFrom (players x) k j).
  { intros j. unfold activeFrom. by rewrite Hflags. }
  destruct (nextActive_rotation ps' k o) as (o' & Ho' & Hn & Ha & _).
  { by rewrite Hlen. }
  { by rewrite Hlen. }
  { rewrite Hsame. lia. }
  exists o'. simpl. fold ps'. rewrite Hlen in *.
  split; [lia|]. split.
  - unfold nextActiveIndex. simpl. fold ps'. rewrite Hlen, Ht. exact Hn.
  - by rewrite Ha, Hsame.
Qed.

Lemma applyAction_dead (st : GameState) (playerId : string) (a : Action) :
  ¬ activePhase (phase st) →
  applyAction st playerId a = (st, Rejected "Hand is not active.").
Proof.
  intros H. unfold applyAction, activePhase in *.
  destruct (phase st); simpl; try reflexivity; exfalso; auto.
Qed.

Lemma run_dead (st : GameState) (acts : list (string * Action)) :
  ¬ activePhase (phase st) →
  run st acts = st ∧ finalTurns st acts = 0%nat ∧ any31 st acts = false.
Proof.
  intros H. induction acts as [|[pid a] acts IH]; [by repeat split|].
  unfold run in *. simpl.
  unfold finalTurn, declares31, accepted.
  rewrite (applyAction_dead st pid a H). simpl.
  rewrite !andb_false_r. simpl. exact IH.
Qed.

Lemma hand_over_dead (ph : Phase) : ph = HAND_OVER ∨ ph = GAME_OVER → ¬ activePhase ph.
Proof. intros [-> | ->] [? | ?]; discriminate. Qed.

Lemma phase_settlePhase (st : GameState) :
  phase (settlePhase st) = HAND_OVER ∨ phase (settlePhase st) = GAME_OVER.
Proof. unfold settlePhase. simpl. destruct (truthy (winnerId st)); auto. Qed.

Lemma phase_runShowdown (x : GameState) :
  phase (runShowdown x) = HAND_OVER ∨ phase (runShowdown x) = GAME_OVER.
Proof.
  unfold runShowdown, resetTurnStages, scoreShowdown. cbv zeta.
  change (phase (setPlayers ?ps ?st)) with (phase st).
  apply phase_settlePhase.
Qed.

Lemma left_runShowdown (x : GameState) :
  finalTurnsLeft (runShowdown x) = finalTurnsLeft x.
Proof.
  unfold runShowdown, resetTurnStages.
  change (finalTurnsLeft (setPlayers ?ps ?st)) with (finalTurnsLeft st).
  rewrite (scoreShowdown_frame finalTurnsLeft); try reflexivity.
  intros. by apply settle_finish_frame.
Qed.

Lemma phase_declare31_over (x : GameState) (p : Player) :
  phase (declare31 x p) = HAND_OVER ∨ phase (declare31 x p) = GAME_OVER.
Proof.
  unfold declare31, resetTurnStages.
  change (phase (setPlayers ?ps ?st)) with (phase st).
  apply phase_settlePhase.
Qed.

Lemma lookup_same_id (ps ps' : list Player) (k : nat) (pk : Player) :
  map p_id ps' = map p_id ps → ps !! k = Some pk →
  ∃ pk', ps' !! k = Some pk' ∧ p_id pk' = p_id pk.
Proof.
  intros Hids Hk.
  assert (H : (p_id <$> ps') !! k = Some (p_id pk)).
  { change (p_id <$> ps') with (map p_id ps'). rewrite Hids.
    change (map p_id ?l) with (p_id <$> l). by rewrite list_lookup_fmap, Hk. }
  rewrite list_lookup_fmap in H.
  destruct (ps' !! k) as [pk'|]; [| discriminate].
  injection H as H. eauto.
Qed.

Lemma ids_advanceTurn (x : GameState) :
  map p_id (players (advanceTurn x)) = map p_id (players x).
Proof. simpl. apply map_alter_same. reflexivity. Qed.

Lemma flags_afterDiscard (s : GameState) (p : Player) (idx : nat) (c : Card) :
  players s !! turnIndex s = Some p →
  flags (players (afterDiscard s p idx c)) = flags (players s).
Proof.
  intros Hp. unfold flags. simpl.
  apply map_insert_same with (b := eliminated p); [| reflexivity].
  change (map eliminated ?l) with (eliminated <$> l).
  by rewrite list_lookup_fmap, Hp.
Qed.

(** An accepted KNOCK: who knocked, in which phase, and the state it
    leaves. *)
Lemma knock_Ok_inv (s sK : GameState) (playerId : string) :
  applyAction s playerId KNOCK = (sK, Ok) →
  ∃ p0, acting s playerId p0
        ∧ phase s = PLAYING
        ∧ sK = advanceTurn
                 (pushLog (LogKnocks (p_name (initStage p0)))
                    (setFinalTurnsLeft
                       (Z.of_nat (length (activePlayers s)) - 1)
                       (setPhase KNOCKED
                          (setKnockedBy (Some playerId)
                             (putCurrent (initStage p0) s))))).
Proof.
  intros H. destruct (applyAction_Ok_acting _ _ _ _ H) as (p0 & Hact).
  exists p0. split; [exact Hact|].
  rewrite (applyAction_acting s playerId KNOCK p0 Hact) in H. cbv zeta in H.
  destruct (negb (isStart (initStage p0))); [discriminate|].
  destruct (canKnock (putCurrent (initStage p0) s) playerId) eqn:Hck;
    [| discriminate].
  simpl in H. injection H as <-.
  assert (Hph : phase s = PLAYING).
  { unfold canKnock in Hck. simpl in Hck.
    destruct (phase s); simpl in Hck; congruence. }
  split; [exact Hph|].
  destruct Hact as (_ & Hp & _ & _).
  assert (Hlen : length (activePlayers
                   (setPhase KNOCKED (setKnockedBy (Some playerId)
                      (putCurrent (initStage p0) s))))
                 = length (activePlayers s)).
  { unfold activePlayers. rewrite <- !(activeFrom_total _ 0). unfold activeFrom.
    f_equal. f_equal. f_equal. f_equal. unfold flags. simpl.
    apply map_insert_same with (b := eliminated p0);
      [| apply eliminated_initStage].
    change (map eliminated ?l) with (eliminated <$> l).
    by rewrite list_lookup_fmap, Hp. }
  rewrite Hlen. reflexivity.
Qed.

(** A successful knock by one of at least two players still in the game
    starts the countdown at the number of the others. *)
Lemma knock_countdown (s sK : GameState) (playerId : string) :
  uniqueIds s →
  (2 ≤ length (activePlayers s))%nat →
  applyAction s playerId KNOCK = (sK, Ok) →
  knockedBy sK = Some playerId
  ∧ countdown sK (length (activePlayers s) - 1).
Proof.
  intros Hnd Hact H.
  destruct (knock_Ok_inv _ _ _ H) as (p0 & (Hph & Hp & Hid & He) & _ & ->).
  split; [reflexivity|].
  set (y := pushLog _ _).
  assert (Hk : (turnIndex s < length (players s))%nat)
    by (eapply lookup_lt_Some; eauto).
  assert (Hlen : length (players y) = length (players s))
    by (simpl; apply length_insert).
  assert (Hflags : flags (players y) = flags (players s)).
  { unfold flags. simpl.
    apply map_insert_same with (b := eliminated p0);
      [| apply eliminated_initStage].
    change (map eliminated ?l) with (eliminated <$> l).
    by rewrite list_lookup_fmap, Hp. }
  assert (Hids : map p_id (players y) = map p_id (players s)).
  { simpl. apply map_insert_same with (b := p_id p0); [| apply p_id_initStage].
    change (map p_id ?l) with (p_id <$> l). by rewrite list_lookup_fmap, Hp. }
  destruct (advanceTurn_offset y (turnIndex s) 0 (length (activePlayers s) - 1))
    as (o' & Ho' & Ht & Ha).
  - by rewrite Hlen.
  - rewrite Hlen. lia.
  - rewrite Hlen, Nat.add_0_r, Nat.mod_small; auto.
  - rewrite Hflags. apply flags_lookup. eauto.
  - unfold activeFrom. rewrite Hflags.
    fold (activeFrom (players s) (turnIndex s) 0).
    rewrite activeFrom_total. unfold activePlayers in *. lia.
  - lia.
  - destruct (lookup_same_id (players s) (players (advanceTurn y)) (turnIndex s) p0)
      as (pk & Hpk & Hpkid); [by rewrite ids_advanceTurn, Hids | exact Hp |].
    split; [unfold uniqueIds; by rewrite ids_advanceTurn, Hids|].
    split; [reflexivity|]. split; [simpl; lia|]. split; [lia|].
    exists (turnIndex s), pk, o'. rewrite Hpkid, Hid.
    repeat split; try assumption; lia.
Qed.

Lemma madeExact31_outcome (s s' : GameState) (p : Player) (idx : nat) (c : Card) :
  players s !! turnIndex s = Some p →
  discardOutcome s p idx c s' →
  madeExact31 s s' = hasExact31 (delete idx (hand p)) (rules s).
Proof.
  intros Hp Hout.
  destruct (discardOutcome_hand _ _ _ _ _ Hp Hout) as [Hr Hh].
  unfold madeExact31. rewrite Hr.
  destruct (players s' !! turnIndex s) as [d|]; [| discriminate].
  injection Hh as ->. reflexivity.
Qed.

(** One accepted DISCARD during the countdown: it either declares 31, or it
    is a final turn; the last final turn runs the showdown on a state in
    phase SHOWDOWN whose [finalTurnsLeft] is 0, and any earlier one leaves
    the countdown one lower. *)
Lemma countdown_discard (st st' : GameState) (m : nat) (playerId cardId : string) :
  countdown st m →
  applyAction st playerId (DISCARD cardId) = (st', Ok) →
  ¬ activePhase (phase st') ∧ declares31 st playerId (DISCARD cardId) = true
    ∧ finalTurn st playerId (DISCARD cardId) = false
  ∨ declares31 st playerId (DISCARD cardId) = false
    ∧ finalTurn st playerId (DISCARD cardId) = true
    ∧ (m = 1%nat ∧ ¬ activePhase (phase st') ∧ finalTurnsLeft st' = 0
       ∧ (∃ sS, phase sS = SHOWDOWN ∧ finalTurnsLeft sS = 0
                ∧ st' = resetTurnStages (scoreShowdown sS))
       ∨ (2 ≤ m)%nat ∧ countdown st' (m - 1)).
Proof.
  intros Hcd H.
  destruct (discard_Ok_inv _ _ _ _ H)
    as (p & idx & c & Hact & Hst & Hc & Hcid & Hlen & Hout).
  pose proof (countdown_not_knocker _ _ _ _ Hcd Hact) as Hnk.
  pose proof Hact as (_ & Hp & Hid & He).
  pose proof (madeExact31_outcome _ _ _ _ _ Hp Hout) as H31.
  destruct Hcd as (Hnd & Hph & Hleft & Hm & k & pk & o & Hk & Hkn & Ho & Ht & Ha).
  unfold declares31, finalTurn, accepted. rewrite H. simpl fst. simpl snd.
  rewrite H31, Hph, (bool_decide_eq_false_2 _ Hnk). simpl.
  destruct Hout as [[Hyes ->] | [Hno Hout]]; rewrite ?Hyes, ?Hno; simpl.
  { left. split; [| auto]. apply hand_over_dead, phase_declare31_over. }
  right. split; [reflexivity|]. split; [reflexivity|].
  destruct Hout as [(_ & Hle & ->) | [(_ & Hgt & ->) | (Hpl & _)]];
    [| | congruence].
  - left. split; [lia|]. split; [apply hand_over_dead, phase_runShowdown|].
    split; [rewrite left_runShowdown; simpl; lia|].
    eexists. split; [| split; [| reflexivity]]; simpl; [reflexivity | lia].
  - right. split; [lia|].
    set (x := setFinalTurnsLeft _ _).
    assert (Hflags : flags (players x) = flags (players st))
      by apply (flags_afterDiscard st p idx c Hp).
    assert (Hids : map p_id (players x) = map p_id (players st))
      by apply (ids_afterDiscard st p idx c Hp).
    assert (Hlenx : length (players x) = length (players st))
      by (simpl; apply length_insert).
    destruct (advanceTurn_offset x k o (m - 1)) as (o' & Ho' & Ht' & Ha').
    + rewrite Hlenx. eapply lookup_lt_Some; eauto.
    + rewrite Hlenx. lia.
    + by rewrite Hlenx.
    + rewrite Hflags. apply flags_lookup. eauto.
    + unfold activeFrom. rewrite Hflags. fold (activeFrom (players st) k o). lia.
    + lia.
    + destruct (lookup_same_id (players st) (players (advanceTurn x)) k pk)
        as (pk' & Hpk' & Hpkid); [by rewrite ids_advanceTurn, Hids | exact Hk |].
      split; [unfold uniqueIds; by rewrite ids_advanceTurn, Hids|].
      split; [exact Hph|]. split; [simpl; lia|]. split; [lia|].
      exists k, pk', o'. rewrite Hpkid.
      repeat split; try assumption; lia.
Qed.

Lemma run_cons (st : GameState) (pid : string) (a : Action)
    (acts : list (string * Action)) :
  run st ((pid, a) :: acts) = run (fst (applyAction st pid a)) acts.
Proof. reflexivity. Qed.

Lemma finalTurns_cons (st : GameState) (pid : string) (a : Action)
    (acts : list (string * Action)) :
  finalTurns st ((pid, a) :: acts)
  = ((if finalTurn st pid a then 1 else 0)
     + finalTurns (fst (applyAction st pid a)) acts)%nat.
Proof. reflexivity. Qed.

Lemma any31_cons (st : GameState) (pid : string) (a : Action)
    (acts : list (string * Action)) :
  any31 st ((pid, a) :: acts)
  = declares31 st pid a || any31 (fst (applyAction st pid a)) acts.
Proof. reflexivity. Qed.

(** The countdown over a whole sequence of submitted actions. *)
Lemma countdown_run (acts : list (string * Action)) :
  ∀ st m, countdown st m →
    (finalTurns st acts ≤ m)%nat
    ∧ (any31 st acts = false → (finalTurns st acts < m)%nat →
       countdown (run st acts) (m - finalTurns st acts))
    ∧ (finalTurns st acts = m →
       finalTurnsLeft (run st acts) = 0
       ∧ ¬ activePhase (phase (run st acts))
       ∧ ∃ sS, phase sS = SHOWDOWN ∧ finalTurnsLeft sS = 0
               ∧ run st acts = resetTurnStages (scoreShowdown sS)).
Proof.
  induction acts as [|[pid a] acts IH]; intros st m Hcd.
  { pose proof Hcd as (_ & _ & _ & Hm & _). simpl.
    split; [lia|]. split; [intros _ _; by rewrite Nat.sub_0_r | lia]. }
  rewrite run_cons, finalTurns_cons, any31_cons.
  destruct (applyAction st pid a) as [st' r] eqn:Hstep. simpl fst.
  assert (Hstay : r ≠ Ok ∨ isDrawAction a →
    finalTurn st pid a = false ∧ declares31 st pid a = false ∧ countdown st' m).
  { intros Hr. split; [| split].
    - unfold finalTurn, accepted. rewrite Hstep. simpl.
      destruct Hr as [Hr | [-> | ->]]; try reflexivity.
      destruct r; [contradiction|]. by rewrite andb_false_r.
    - unfold declares31, accepted. rewrite Hstep. simpl.
      destruct Hr as [Hr | [-> | ->]]; try reflexivity.
      destruct r; [contradiction|]. by rewrite andb_false_r.
    - eapply countdown_sameTable; [exact Hcd|].
      eapply applyAction_sameTable; eauto. }
  destruct r as [|e].
  2:{ destruct Hstay as (-> & -> & Hcd'); [left; discriminate|].
      exact (IH st' m Hcd'). }
  destruct a as [| | cardId |].
  - destruct Hstay as (-> & -> & Hcd'); [right; left; reflexivity|].
    exact (IH st' m Hcd').
  - destruct Hstay as (-> & -> & Hcd'); [right; right; reflexivity|].
    exact (IH st' m Hcd').
  - clear Hstay.
    destruct (countdown_discard _ _ _ _ _ Hcd Hstep)
      as [(Hdead & -> & ->) | (-> & -> & [(-> & Hdead & Hleft & HsS) | (Hm & Hcd')])].
    + destruct (run_dead st' acts Hdead) as (-> & -> & _).
      pose proof Hcd as (_ & _ & _ & Hm & _). simpl.
      split; [lia|]. split; [discriminate | lia].
    + destruct (run_dead st' acts Hdead) as (-> & -> & _). simpl.
      split; [lia|]. split; [lia|]. auto.
    + destruct (IH st' (m - 1)%nat Hcd') as (Hle & Hlt & Heq). simpl.
      split; [lia|]. split.
      * intros Hno Hc.
        replace (m - S (finalTurns st' acts))%nat
          with (m - 1 - finalTurns st' acts)%nat by lia.
        apply Hlt; [exact Hno | lia].
      * intros Hc. apply Heq. lia.
  - exfalso. destruct (knock_Ok_inv _ _ _ Hstep) as (_ & _ & Hph & _).
    destruct Hcd as (_ & Hk & _). congruence.
Qed.



(** ** Dealing (section 4.3) *)

Lemma length_makeDeck (sd : Z) : length (makeDeck sd) = 52%nat.
Proof. unfold makeDeck. rewrite length_shuffleInPlace. reflexivity. Qed.

Lemma noneEliminated_flags (ps : list Player) (i : nat) :
  noneEliminated ps → (i < length ps)%nat → flags ps !! i = Some false.
Proof.
  intros Hne Hi. apply flags_lookup.
  destruct (lookup_lt_is_Some_2 ps i Hi) as (p & Hp).
  exists p. split; [exact Hp|]. eapply Hne, list_elem_of_lookup_2, Hp.
Qed.

(** With nobody eliminated the turn passes to the next seat. *)
Lemma nextActive_noneEliminated (ps : list Player) (i : nat) :
  noneEliminated ps → (0 < length ps)%nat →
  nextActiveFrom ps i 1 (length ps) = ((i + 1) mod length ps)%nat.
Proof.
  intros Hne Hn.
  rewrite (nextActiveFrom_first ps i 0 1 (length ps)).
  - f_equal. lia.
  - intros j Hj. lia.
  - apply noneEliminated_flags; [exact Hne|]. by apply Nat.mod_upper_bound; lia.
  - exact Hn.
Qed.

(** The dealing order with nobody eliminated: the seats after [idx], each
    once. *)
Lemma dealOrder_noneEliminated (st : GameState) (k : nat) :
  noneEliminated (players st) →
  (0 < length (players st))%nat →
  ∀ idx, dealOrder st idx k
         = map (fun j => ((idx + j) mod length (players st))%nat) (seq 1 k).
Proof.
  intros Hne Hn. induction k as [|k IH]; intros idx; [reflexivity|].
  cbn [dealOrder]. unfold nextActiveIndex.
  rewrite (nextActive_noneEliminated _ idx Hne Hn).
  cbn [seq map]. f_equal. rewrite IH, <- (seq_shift k 1), map_map.
  apply map_ext. intros j.
  rewrite Nat.Div0.add_mod_idemp_l. f_equal. lia.
Qed.

Lemma dealRound_giveAll (order : list nat) :
  ∀ cs st base,
    length cs = length order →
    stock st = base ++ reverse cs →
    dealRound st order
    = Some (setPlayers (giveAll order cs (players st)) (setStock base st)).
Proof.
  induction order as [|i order IH]; intros cs st base Hlen Hstock.
  - destruct cs; [| discriminate]. simpl in *.
    rewrite app_nil_r in Hstock. subst base. by destruct st.
  - destruct cs as [|c cs]; [discriminate|]. simpl in Hlen.
    rewrite reverse_cons, app_assoc in Hstock.
    cbn [dealRound]. unfold dealCard. rewrite Hstock, pop_app.
    rewrite (IH cs _ base); [reflexivity | lia | reflexivity].
Qed.

Lemma giveAll_other (order : list nat) :
  ∀ cs ps i, i ∉ order → giveAll order cs ps !! i = ps !! i.
Proof.
  induction order as [|i0 order IH]; intros cs ps i Hi; [reflexivity|].
  destruct cs as [|c cs]; [reflexivity|]. simpl.
  apply not_elem_of_cons in Hi as [Hne Hi].
  rewrite IH by exact Hi. unfold give. by rewrite list_lookup_alter_ne.
Qed.

Lemma giveAll_lookup (order : list nat) :
  ∀ cs ps j i c,
    NoDup order → order !! j = Some i → cs !! j = Some c →
    giveAll order cs ps !! i
    = (fun p => setHand (hand p ++ [c]) p) <$> ps !! i.
Proof.
  induction order as [|i0 order IH]; intros cs ps j i c Hnd Hj Hc;
    [discriminate|].
  destruct cs as [|c0 cs]; [discriminate|].
  apply NoDup_cons in Hnd as [Hi0 Hnd]. simpl.
  destruct j as [|j]; simpl in Hj, Hc.
  - injection Hj as ->. injection Hc as ->.
    rewrite giveAll_other by exact Hi0. unfold give.
    by rewrite list_lookup_alter_eq.
  - rewrite (IH cs _ j i c Hnd Hj Hc). unfold give.
    rewrite list_lookup_alter_ne; [reflexivity|].
    intros ->. apply Hi0. eapply list_elem_of_lookup_2, Hj.
Qed.

Lemma dealThreeRounds_giveAll (order : list nat) (cs1 cs2 cs3 : list Card)
    (st : GameState) (base : list Card) :
  length cs1 = length order → length cs2 = length order →
  length cs3 = length order →
  stock st = base ++ reverse (cs1 ++ cs2 ++ cs3) →
  dealThreeRounds st order
  = Some (setPlayers
            (giveAll order cs3 (giveAll order cs2 (giveAll order cs1 (players st))))
            (setStock base st)).
Proof.
  intros H1 H2 H3 Hstock. unfold dealThreeRounds.
  rewrite !reverse_app in Hstock.
  rewrite (dealRound_giveAll order cs1 st (base ++ reverse cs3 ++ reverse cs2));
    [| exact H1 | by rewrite Hstock, <- !app_assoc].
  simpl.
  rewrite (dealRound_giveAll order cs2 _ (base ++ reverse cs3));
    [| exact H2 | by simpl; rewrite <- !app_assoc].
  simpl.
  rewrite (dealRound_giveAll order cs3 _ base); [| exact H3 | reflexivity].
  reflexivity.
Qed.

Lemma mod_add_cancel (d j1 j2 n : nat) :
  (j1 ≤ j2)%nat → (j2 - j1 < n)%nat →
  ((d + j1) mod n = (d + j2) mod n)%nat → j1 = j2.
Proof.
  intros Hle Hlt Hmod.
  assert (Hn : n ≠ 0%nat) by lia.
  pose proof (Nat.div_mod_eq (d + j1) n) as E1.
  pose proof (Nat.div_mod_eq (d + j2) n) as E2.
  rewrite Hmod in E1.
  assert (Hq : ((d + j1) / n ≤ (d + j2) / n)%nat)
    by (apply Nat.Div0.div_le_mono; lia).
  revert E1 E2 Hq.
  generalize ((d + j1) / n)%nat ((d + j2) / n)%nat ((d + j2) mod n)%nat.
  intros q1 q2 r E1 E2 Hq.
  destruct (decide (q1 = q2)) as [-> | Hne]; [lia|].
  assert (n * (q1 + 1) ≤ n * q2)%nat by (apply Nat.mul_le_mono_l; lia).
  lia.
Qed.

(** The seats after the dealer, taken once round the table, are pairwise
    distinct. *)
Lemma seatsAfter_NoDup (d n : nat) :
  NoDup (map (fun j => ((d + j) mod n)%nat) (seq 1 n)).
Proof.
  change (map ?f ?l) with (f <$> l). apply NoDup_fmap_2_strong; [| apply NoDup_seq].
  intros j1 j2 H1 H2 Heq. apply elem_of_seq in H1, H2.
  destruct (decide (j1 ≤ j2)%nat).
  - apply (mod_add_cancel d j1 j2 n); [lia | lia | exact Heq].
  - symmetry. apply (mod_add_cancel d j2 j1 n); [lia | lia | by symmetry].
Qed.

Lemma seatsAfter_lookup (d n j : nat) :
  (j < n)%nat →
  map (fun j => ((d + j) mod n)%nat) (seq 1 n) !! j = Some ((d + 1 + j) mod n)%nat.
Proof.
  intros Hj. change (map ?f ?l) with (f <$> l).
  rewrite list_lookup_fmap, lookup_seq_lt by exact Hj. simpl.
  do 2 f_equal. lia.
Qed.

Lemma dealtPlayers_lookup (ps : list Player) (dealer : nat) (deck : list Card)
    (j : nat) (c1 c2 c3 : Card) :
  (j < length ps)%nat →
  deck !! j = Some c1 →
  deck !! (length ps + j)%nat = Some c2 →
  deck !! (2 * length ps + j)%nat = Some c3 →
  dealtPlayers ps dealer deck !! ((dealer + 1 + j) mod length ps)%nat
  = setHand [c1; c2; c3] <$> ps !! ((dealer + 1 + j) mod length ps)%nat.
Proof.
  intros Hj H1 H2 H3. unfold dealtPlayers. cbv zeta.
  set (n := length ps) in *.
  set (order := map _ (seq 1 n)).
  assert (Hnd : NoDup order) by apply seatsAfter_NoDup.
  assert (Ho : order !! j = Some ((dealer + 1 + j) mod n)%nat)
    by (by apply seatsAfter_lookup).
  rewrite (giveAll_lookup order _ _ j _ c3 Hnd Ho);
    [| by rewrite lookup_take_lt, lookup_drop].
  rewrite (giveAll_lookup order _ _ j _ c2 Hnd Ho);
    [| by rewrite lookup_take_lt, lookup_drop].
  rewrite (giveAll_lookup order _ _ j _ c1 Hnd Ho);
    [| by rewrite lookup_take_lt].
  change (map ?f ps) with (f <$> ps). rewrite list_lookup_fmap.
  destruct (ps !! ((dealer + 1 + j) mod n)%nat); reflexivity.
Qed.

Lemma hands_declareDealt31 (x : GameState) :
  map hand (players (declareDealt31 x)) = map hand (players x).
Proof.
  unfold declareDealt31. cbv zeta.
  destruct (0 <? length _)%nat; [| reflexivity].
  rewrite players_finish. simpl. rewrite map_map. apply map_ext. intros q.
  destruct (eliminated q); [reflexivity|].
  destruct (existsb _ _); [reflexivity | apply hand_loseLives].
Qed.

Lemma declareDealt31_active (x : GameState) :
  activePhase (phase (declareDealt31 x)) → declareDealt31 x = x.
Proof.
  unfold declareDealt31. cbv zeta.
  destruct (0 <? length _)%nat; [| reflexivity].
  intros H. exfalso. revert H. apply hand_over_dead, phase_settlePhase.
Qed.

Lemma deck_split (deck : list Card) (n : nat) :
  (3 * n < length deck)%nat →
  ∃ up rest,
    deck = (take n deck ++ take n (drop n deck) ++ take n (drop (2 * n) deck))
           ++ up :: rest
    ∧ deck !! (3 * n)%nat = Some up.
Proof.
  intros Hlen.
  destruct (lookup_lt_is_Some_2 deck (3 * n) Hlen) as (up & Hup).
  exists up, (drop (S (3 * n)) deck). split; [| exact Hup].
  rewrite <- (drop_S _ _ _ Hup).
  rewrite <- (take_drop n deck) at 1.
  rewrite <- !app_assoc. f_equal.
  rewrite <- (take_drop n (drop n deck)) at 1. f_equal.
  rewrite drop_drop.
  rewrite <- (take_drop n (drop (n + n) deck)) at 1.
  rewrite drop_drop. replace (2 * n)%nat with (n + n)%nat by lia.
  replace (3 * n)%nat with (n + n + n)%nat by lia. reflexivity.
Qed.

(** [startHand] on a table with nobody eliminated and at most 17 seats:
    it succeeds, the hands are the dealt ones, and unless a dealt 31 ended
    the hand the players are exactly the dealt ones. *)
Lemma startHand_noneEliminated (s0 : GameState) :
  noneEliminated (players s0) →
  (length (players s0) ≤ 17)%nat →
  let dealt := dealtPlayers (players s0) (dealerIndex s0)
                            (reverse (makeDeck (seed s0))) in
  ∃ s1, startHand s0 = Some s1
        ∧ map hand (players s1) = map hand dealt
        ∧ (activePhase (phase s1) →
           players s1 = dealt ∧ phase s1 = PLAYING
           ∧ turnIndex s1
             = nextActiveFrom dealt (dealerIndex s0) 1 (length dealt)).
Proof.
  intros Hne Hn. cbv zeta.
  set (st := clearTable s0).
  set (n := length (players s0)) in *.
  set (deck := reverse (makeDeck (seed s0))).
  assert (Hdeck : length deck = 52%nat)
    by (unfold deck; by rewrite length_reverse, length_makeDeck).
  assert (Hlen : length (players st) = n) by (simpl; apply length_map).
  assert (Horder : dealOrder st (dealerIndex st) (length (players st))
                   = map (fun j => ((dealerIndex s0 + j) mod n)%nat) (seq 1 n)).
  { rewrite Hlen. destruct (decide (n = 0%nat)) as [-> | Hpos]; [reflexivity|].
    rewrite dealOrder_noneEliminated; [by rewrite Hlen | | lia].
    intros p Hp. simpl in Hp. change (map ?f ?l) with (f <$> l) in Hp.
    apply list_elem_of_fmap in Hp as (q & -> & Hq). simpl. by apply Hne. }
  destruct (deck_split deck n) as (up & rest & Hsplit & Hup); [lia|].
  assert (Hstock : stock st
                   = (reverse rest ++ [up])
                     ++ reverse (take n deck ++ take n (drop n deck)
                                 ++ take n (drop (2 * n) deck))).
  { simpl. rewrite <- (reverse_involutive (makeDeck (seed s0))). fold deck.
    rewrite Hsplit at 1. by rewrite reverse_app, reverse_cons. }
  unfold startHand. fold st. cbv zeta. rewrite Horder.
  rewrite (dealThreeRounds_giveAll _ (take n deck) (take n (drop n deck))
             (take n (drop (2 * n) deck)) st (reverse rest ++ [up]));
    [| rewrite length_map, length_seq, length_take, ?length_drop; lia ..
     | exact Hstock].
  simpl. unfold startDiscard. simpl stock. rewrite pop_app. simpl.
  eexists. split; [reflexivity|]. split.
  - rewrite hands_declareDealt31. reflexivity.
  - intros Hact. rewrite (declareDealt31_active _ Hact). auto.
Qed.

Lemma seatsAfter_surj (d n i : nat) :
  (i < n)%nat → ∃ j, (j < n)%nat ∧ ((d + 1 + j) mod n)%nat = i.
Proof.
  intros Hi. set (r := ((d + 1) mod n)%nat).
  assert (Hr : (r < n)%nat) by (apply Nat.mod_upper_bound; lia).
  destruct (decide (r ≤ i)%nat).
  - exists (i - r)%nat. split; [lia|].
    rewrite <- Nat.Div0.add_mod_idemp_l. fold r.
    replace (r + (i - r))%nat with i by lia. by apply Nat.mod_small.
  - exists (i + n - r)%nat. split; [lia|].
    rewrite <- Nat.Div0.add_mod_idemp_l. fold r.
    replace (r + (i + n - r))%nat with (i + 1 * n)%nat by lia.
    rewrite Nat.Div0.mod_add. by apply Nat.mod_small.
Qed.

(** Every seat of a table of at most 17 is dealt exactly three cards, the
    ones its place after the dealer determines. *)
Lemma dealtPlayers_seat (ps : list Player) (dealer : nat) (deck : list Card)
    (i : nat) (p : Player) :
  length deck = 52%nat → (length ps ≤ 17)%nat →
  ps !! i = Some p →
  ∃ j c1 c2 c3,
    (j < length ps)%nat ∧ i = ((dealer + 1 + j) mod length ps)%nat
    ∧ deck !! j = Some c1
    ∧ deck !! (length ps + j)%nat = Some c2
    ∧ deck !! (2 * length ps + j)%nat = Some c3
    ∧ dealtPlayers ps dealer deck !! i = Some (setHand [c1; c2; c3] p).
Proof.
  intros Hdeck Hn Hp.
  assert (Hi : (i < length ps)%nat) by (eapply lookup_lt_Some; eauto).
  destruct (seatsAfter_surj dealer _ i Hi) as (j & Hj & Hij).
  destruct (lookup_lt_is_Some_2 deck j) as (c1 & H1); [lia|].
  destruct (lookup_lt_is_Some_2 deck (length ps + j)) as (c2 & H2); [lia|].
  destruct (lookup_lt_is_Some_2 deck (2 * length ps + j)) as (c3 & H3); [lia|].
  exists j, c1, c2, c3. repeat split; auto.
  rewrite <- Hij at 1.
  rewrite (dealtPlayers_lookup ps dealer deck j c1 c2 c3 Hj H1 H2 H3).
  by rewrite Hij, Hp.
Qed.

(** ** Hand sizes during play (section 3) *)

Lemma alter_insert {A} (f : A → A) (i : nat) (x : A) (l : list A) :
  alter f i (<[i := x]> l) = <[i := f x]> l.
Proof.
  revert i. induction l as [|y l IH]; intros [|i]; simpl; try reflexivity.
  f_equal. apply IH.
Qed.

Lemma insert_insert_same {A} (i : nat) (x y : A) (l : list A) :
  <[i := x]> (<[i := y]> l) = <[i := x]> l.
Proof.
  revert i. induction l as [|z l IH]; intros [|i]; simpl; try reflexivity.
  f_equal. apply IH.
Qed.

(** Replacing the acting player by one that fits keeps [turnInv]. *)
Lemma turnInv_update (st st' : GameState) (p' : Player) :
  turnInv st →
  players st' = <[turnIndex st := p']> (players st) →
  eliminated p' = false →
  length (hand p') = (if isDrew p' then 4 else 3)%nat →
  (isDrew p' = true → turnIndex st' = turnIndex st) →
  turnInv st'.
Proof.
  intros [Hne Hinv] Hps He Hlen Hturn. split.
  - intros q Hq. rewrite Hps in Hq.
    apply list_elem_of_lookup in Hq as (i & Hq).
    destruct (decide (i = turnIndex st)) as [-> | Hi].
    + apply list_lookup_insert_Some in Hq as [(_ & <- & _) | (? & _)];
        [exact He | contradiction].
    + rewrite list_lookup_insert_ne in Hq by auto.
      eapply Hne, list_elem_of_lookup_2, Hq.
  - intros i q Hq. rewrite Hps in Hq.
    destruct (decide (i = turnIndex st)) as [-> | Hi].
    + apply list_lookup_insert_Some in Hq as [(_ & <- & _) | (? & _)];
        [| contradiction].
      split; [exact Hlen|]. intros Hd. symmetry. by apply Hturn.
    + rewrite list_lookup_insert_ne in Hq by auto.
      destruct (Hinv i q Hq) as [Hl Hd]. split; [exact Hl|].
      intros Hq'. specialize (Hd Hq'). contradiction.
Qed.

Lemma refill_players (st : GameState) :
  players (fst (refillStockFromDiscard st)) = players st
  ∧ turnIndex (fst (refillStockFromDiscard st)) = turnIndex st.
Proof.
  unfold refillStockFromDiscard.
  destruct (length (discard st) <=? 1)%nat; [split; reflexivity|].
  destruct (pop (discard st)) as [[top recycle]|]; split; reflexivity.
Qed.

(** An accepted draw: the acting player was at the start of its turn and
    now holds one card more, at stage DREW. *)
Lemma draw_Ok_inv (s s' : GameState) (playerId : string) (a : Action) :
  isDrawAction a →
  applyAction s playerId a = (s', Ok) →
  ∃ p0 p',
    acting s playerId p0
    ∧ isDrew p0 = false
    ∧ players s' = <[turnIndex s := p']> (players s)
    ∧ eliminated p' = false
    ∧ isDrew p' = true
    ∧ length (hand p') = S (length (hand p0)).
Proof.
  intros Ha H.
  destruct (applyAction_Ok_acting _ _ _ _ H) as (p0 & Hact).
  pose proof Hact as (Hph & Hp & Hid & He).
  unfold applyAction in H.
  assert (Hg : negb (phase_eqb (phase s) PLAYING) && negb (phase_eqb (phase s) KNOCKED)
               = false) by (destruct Hph as [-> | ->]; reflexivity).
  rewrite Hg, Hp, Hid, String.eqb_refl, He in H. cbv zeta in H.
  assert (Hstage : isStart (initStage p0) = true → isDrew p0 = false).
  { intros Hs. apply isStart_initStage in Hs. unfold isDrew.
    destruct Hs as [-> | ->]; reflexivity. }
  exists p0.
  destruct Ha as [-> | ->].
  - destruct (isStart (initStage p0)) eqn:Hs; [| discriminate].
    cbn [negb] in H.
    set (refilled := if (length (stock (putCurrent (initStage p0) s)) =? 0)%nat
                     then refillStockFromDiscard (putCurrent (initStage p0) s)
                     else (putCurrent (initStage p0) s, true)) in *.
    assert (Hpl : players (fst refilled) = <[turnIndex s := initStage p0]> (players s)
                  ∧ turnIndex (fst refilled) = turnIndex s).
    { clear H. subst refilled.
      destruct (length (stock (putCurrent (initStage p0) s)) =? 0)%nat;
        [| split; reflexivity].
      destruct (refill_players (putCurrent (initStage p0) s)) as [-> ->].
      split; reflexivity. }
    destruct Hpl as [Hpl Hti].
    destruct (negb (snd refilled)); [discriminate|].
    destruct (pop (stock (fst refilled))) as [[c rest]|]; [| discriminate].
    injection H as <-. eexists. split; [exact Hact|]. split; [auto|].
    split; [| split; [| split]].
    + simpl. rewrite Hpl, Hti. apply insert_insert_same.
    + simpl. by rewrite eliminated_initStage.
    + reflexivity.
    + simpl. rewrite length_app, hand_initStage. simpl. lia.
  - destruct (isStart (initStage p0)) eqn:Hs; [| discriminate]. simpl in H.
    destruct (pop (discard s)) as [[c rest]|]; [| discriminate].
    injection H as <-. eexists. split; [exact Hact|]. split; [auto|].
    split; [| split; [| split]].
    + simpl. apply insert_insert_same.
    + simpl. by rewrite eliminated_initStage.
    + reflexivity.
    + simpl. rewrite length_app, hand_initStage. simpl. lia.
Qed.

(** The internal hand-size error presupposes a player at stage DREW who
    does not hold 4 cards. *)
Lemma internalError_inv (s s' : GameState) (playerId : string) (a : Action) :
  applyAction s playerId a = (s', Rejected internalError) →
  ∃ p, players s !! turnIndex s = Some p
       ∧ isDrew p = true ∧ length (hand p) ≠ 4%nat.
Proof.
  unfold applyAction, internalError. intros H.
  destruct (negb (phase_eqb (phase s) PLAYING) && negb (phase_eqb (phase s) KNOCKED));
    [discriminate|].
  destruct (players s !! turnIndex s) as [p0|] eqn:Hp0; [| discriminate].
  destruct (negb (String.eqb (p_id p0) playerId)); [discriminate|].
  destruct (eliminated p0); [discriminate|].
  cbv zeta in H. exists p0. split; [reflexivity|].
  destruct a as [| | cardId |].
  - destruct (negb (isStart (initStage p0))); [discriminate|].
    destruct (negb (snd _)); [discriminate|].
    destruct (pop _) as [[? ?]|]; discriminate.
  - destruct (negb (isStart (initStage p0))); [discriminate|].
    destruct (pop _) as [[? ?]|]; discriminate.
  - destruct (isDrew (initStage p0)) eqn:Hd; [| discriminate]. simpl in H.
    apply isDrew_initStage in Hd.
    assert (Hinit : initStage p0 = p0) by (unfold initStage; by rewrite Hd).
    rewrite Hinit in H.
    destruct (findIndex _ (hand p0)) as [idx|] eqn:Hidx; [| discriminate].
    destruct (truthy _ && bool_decide _); [discriminate|].
    destruct (findIndex_Some _ _ _ Hidx) as (c & Hc & _).
    simpl hand in H.
    destruct (length (delete idx (hand p0)) =? 3)%nat eqn:Hlen.
    + simpl in H.
      repeat match type of H with
             | context [if ?b then _ else _] => destruct b
             end; discriminate.
    + apply Nat.eqb_neq in Hlen. rewrite length_delete in Hlen by eauto.
      split; [unfold isDrew; by rewrite Hd | lia].
  - destruct (negb (isStart (initStage p0))); [discriminate|].
    destruct (negb (canKnock _ playerId)); discriminate.
Qed.

Lemma knock_Ok_start (s sK : GameState) (playerId : string) (p0 : Player) :
  applyAction s playerId KNOCK = (sK, Ok) →
  players s !! turnIndex s = Some p0 →
  isStart (initStage p0) = true.
Proof.
  unfold applyAction. intros H Hp. rewrite Hp in H.
  destruct (negb (phase_eqb (phase s) PLAYING) && negb (phase_eqb (phase s) KNOCKED));
    [discriminate|].
  destruct (negb (String.eqb (p_id p0) playerId)); [discriminate|].
  destruct (eliminated p0); [discriminate|].
  cbv zeta in H. destruct (isStart (initStage p0)); [reflexivity | discriminate].
Qed.

(** Every action keeps [turnInv] as long as the hand stays active. *)
Lemma applyAction_turnInv (st st' : GameState) (playerId : string) (a : Action)
    (r : Result) :
  turnInv st →
  applyAction st playerId a = (st', r) →
  activePhase (phase st') →
  turnInv st'.
Proof.
  intros Hinv H Hact'. pose proof Hinv as [Hne Hhands].
  destruct r as [|e].
  - destruct a as [| | cardId |].
    + (* DRAW_STOCK *)
      destruct (draw_Ok_inv _ _ _ _ (or_introl eq_refl) H)
        as (p0 & p' & (_ & Hp & _) & Hnd & Hps & He & Hd & Hlen).
      apply (turnInv_update st st' p' Hinv Hps He).
      * destruct (Hhands _ _ Hp) as [Hl _]. rewrite Hnd in Hl. rewrite Hd. lia.
      * intros _. eapply st_turnIndex, applyAction_sameTable; eauto.
        right. by left.
    + (* DRAW_DISCARD *)
      destruct (draw_Ok_inv _ _ _ _ (or_intror eq_refl) H)
        as (p0 & p' & (_ & Hp & _) & Hnd & Hps & He & Hd & Hlen).
      apply (turnInv_update st st' p' Hinv Hps He).
      * destruct (Hhands _ _ Hp) as [Hl _]. rewrite Hnd in Hl. rewrite Hd. lia.
      * intros _. eapply st_turnIndex, applyAction_sameTable; eauto.
        right. by right.
    + (* DISCARD *)
      destruct (discard_Ok_inv _ _ _ _ H)
        as (p & idx & c & (_ & Hp & _ & He) & Hst & Hc & _ & Hlen & Hout).
      assert (Hadv : ∀ x, players x = players (afterDiscard st p idx c) →
                          turnIndex x = turnIndex st →
                          turnInv (advanceTurn x)).
      { intros x Hx Hti.
        apply (turnInv_update st _
                 (setTurn None None None (setHand (delete idx (hand p)) p)) Hinv).
        - simpl. rewrite Hx, Hti. simpl. apply alter_insert.
        - exact He.
        - simpl. rewrite length_delete by eauto. lia.
        - discriminate. }
      destruct Hout as [[_ ->] | [_ [(_ & _ & ->) | [(_ & _ & ->) | (_ & ->)]]]].
      * exfalso. revert Hact'. apply hand_over_dead, phase_declare31_over.
      * exfalso. revert Hact'. apply hand_over_dead, phase_runShowdown.
      * by apply Hadv.
      * by apply Hadv.
    + (* KNOCK *)
      destruct (knock_Ok_inv _ _ _ H) as (p0 & (_ & Hp & _ & He) & _ & ->).
      assert (Hnd : isDrew p0 = false).
      { destruct (isStart_initStage p0 (knock_Ok_start _ _ _ _ H Hp))
          as [Hs | Hs]; unfold isDrew; by rewrite Hs. }
      apply (turnInv_update st _ (setTurn None None None (initStage p0)) Hinv).
      * simpl. apply alter_insert.
      * simpl. by rewrite eliminated_initStage.
      * simpl. rewrite hand_initStage. destruct (Hhands _ _ Hp) as [Hl _].
        by rewrite Hnd in Hl.
      * discriminate.
  - destruct (decide (e = internalError)) as [-> | He].
    + exfalso. destruct (internalError_inv _ _ _ _ H) as (p & Hp & Hd & Hlen).
      destruct (Hhands _ _ Hp) as [Hl _]. rewrite Hd in Hl. contradiction.
    + destruct (rejection_stageInitOnly _ _ _ _ _ H He)
        as [-> | (p & Hp & Hst & ->)]; [exact Hinv|].
      apply (turnInv_update st _
               (setTurn (Some START) (drawnCardId p) (tookDiscardId p) p) Hinv).
      * reflexivity.
      * simpl. eapply Hne, list_elem_of_lookup_2, Hp.
      * simpl. destruct (Hhands _ _ Hp) as [Hl _].
        unfold isDrew in Hl. rewrite Hst in Hl. exact Hl.
      * discriminate.
Qed.

Lemma run_turnInv (acts : list (string * Action)) :
  ∀ st, (activePhase (phase st) → turnInv st) →
        activePhase (phase (run st acts)) → turnInv (run st acts).
Proof.
  induction acts as [|[pid a] acts IH]; intros st Hinv; [exact Hinv|].
  rewrite run_cons. apply IH.
  destruct (applyAction st pid a) as [st' r] eqn:Hstep. simpl.
  intros Hact'.
  destruct (phase st) eqn:Hph;
    try (rewrite applyAction_dead in Hstep
           by (rewrite Hph; intros [? | ?]; discriminate);
         injection Hstep as <- _; apply Hinv; rewrite Hph in Hact';
         destruct Hact'; discriminate).
  - eapply applyAction_turnInv; eauto. apply Hinv. by left.
  - eapply applyAction_turnInv; eauto. apply Hinv. by right.
Qed.

Lemma length_giveAll (order : list nat) :
  ∀ cs ps, length (giveAll order cs ps) = length ps.
Proof.
  induction order as [|i order IH]; intros cs ps; [reflexivity|].
  destruct cs as [|c cs]; [reflexivity|]. simpl.
  rewrite IH. unfold give. apply length_alter.
Qed.

Lemma length_dealtPlayers (ps : list Player) (dealer : nat) (deck : list Card) :
  length (dealtPlayers ps dealer deck) = length ps.
Proof. unfold dealtPlayers. by rewrite !length_giveAll, length_map. Qed.

(** The dealt table satisfies [turnInv]. *)
Lemma dealt_turnInv (s0 s1 : GameState) :
  noneEliminated (players s0) →
  (∀ p, p ∈ players s0 → isDrew p = false) →
  (length (players s0) ≤ 17)%nat →
  players s1 = dealtPlayers (players s0) (dealerIndex s0)
                            (reverse (makeDeck (seed s0))) →
  turnInv s1.
Proof.
  intros Hne Hnd Hn Hps.
  assert (Hdeck : length (reverse (makeDeck (seed s0))) = 52%nat)
    by (by rewrite length_reverse, length_makeDeck).
  assert (Hseat : ∀ i q, players s1 !! i = Some q →
            ∃ p c1 c2 c3, players s0 !! i = Some p ∧ q = setHand [c1; c2; c3] p).
  { intros i q Hq. rewrite Hps in Hq.
    assert (Hi : (i < length (players s0))%nat).
    { apply lookup_lt_Some in Hq. by rewrite length_dealtPlayers in Hq. }
    destruct (lookup_lt_is_Some_2 _ _ Hi) as (p & Hp).
    destruct (dealtPlayers_seat _ (dealerIndex s0) _ i p Hdeck Hn Hp)
      as (j & c1 & c2 & c3 & _ & _ & _ & _ & _ & Hd).
    rewrite Hd in Hq. injection Hq as <-. eauto 6. }
  split.
  - intros q Hq. apply list_elem_of_lookup in Hq as (i & Hq).
    destruct (Hseat i q Hq) as (p & c1 & c2 & c3 & Hp & ->). simpl.
    eapply Hne, list_elem_of_lookup_2, Hp.
  - intros i q Hq.
    destruct (Hseat i q Hq) as (p & c1 & c2 & c3 & Hp & ->).
    assert (Hd : isDrew (setHand [c1; c2; c3] p) = false)
      by (apply (Hnd p); eapply list_elem_of_lookup_2, Hp).
    rewrite Hd. split; [reflexivity | discriminate].
Qed.

(** C1, as the code has it. On a table of at most 17 seats with nobody
    eliminated and no turn pending, [startHand] succeeds and deals exactly 3
    cards to each player, round-robin in 3 rounds in seat order starting
    left of the dealer: the seat [j] places after the dealer gets the cards
    number [j], [n + j] and [2n + j] from the top of the shuffled deck.
    In every state that submitted actions reach from that deal while the
    phase is PLAYING or KNOCKED, nobody is eliminated and every player holds
    exactly 3 cards, except the acting player between its draw and its
    discard, who holds 4. *)
Theorem three_cards_each (s0 : GameState) (acts : list (string * Action)) :
  noneEliminated (players s0) →
  (∀ p, p ∈ players s0 → isDrew p = false) →
  (length (players s0) ≤ 17)%nat →
  let n := length (players s0) in
  let deck := reverse (makeDeck (seed s0)) in
  ∃ s1,
    startHand s0 = Some s1
    ∧ (∀ j, (j < n)%nat →
         ∃ p c1 c2 c3,
           players s1 !! ((dealerIndex s0 + 1 + j) mod n)%nat = Some p
           ∧ hand p = [c1; c2; c3]
           ∧ deck !! j = Some c1
           ∧ deck !! (n + j)%nat = Some c2
           ∧ deck !! (2 * n + j)%nat = Some c3)
    ∧ (∀ p, p ∈ players s1 → length (hand p) = 3%nat)
    ∧ (activePhase (phase (run s1 acts)) →
       ∀ i p, players (run s1 acts) !! i = Some p →
              eliminated p = false
              ∧ length (hand p) = (if isDrew p then 4 else 3)%nat
              ∧ (isDrew p = true → i = turnIndex (run s1 acts))).
Proof.
  intros Hne Hnd Hn. cbv zeta.
  destruct (startHand_noneEliminated s0 Hne Hn) as (s1 & Hstart & Hhands & Hactive).
  set (deck := reverse (makeDeck (seed s0))) in *.
  set (dealt := dealtPlayers (players s0) (dealerIndex s0) deck) in *.
  assert (Hdeck : length deck = 52%nat)
    by (unfold deck; by rewrite length_reverse, length_makeDeck).
  assert (Hhand : ∀ i q, dealt !! i = Some q →
                         ∃ p, players s1 !! i = Some p ∧ hand p = hand q).
  { intros i q Hq. apply (lookup_hands _ _ i) in Hhands. rewrite Hq in Hhands.
    destruct (players s1 !! i) as [p|]; [| discriminate].
    injection Hhands as Hh. eauto. }
  exists s1. split; [exact Hstart|]. split; [| split].
  - intros j Hj.
    destruct (lookup_lt_is_Some_2 deck j) as (c1 & H1); [lia|].
    destruct (lookup_lt_is_Some_2 deck (length (players s0) + j)) as (c2 & H2); [lia|].
    destruct (lookup_lt_is_Some_2 deck (2 * length (players s0) + j)) as (c3 & H3);
      [lia|].
    pose proof (dealtPlayers_lookup (players s0) (dealerIndex s0) deck j c1 c2 c3
                  Hj H1 H2 H3) as Hd.
    fold dealt in Hd.
    destruct (lookup_lt_is_Some_2 (players s0)
                ((dealerIndex s0 + 1 + j) mod length (players s0))%nat)
      as (p0 & Hp0); [apply Nat.mod_upper_bound; lia|].
    rewrite Hp0 in Hd. destruct (Hhand _ _ Hd) as (p & Hp & Hh).
    exists p, c1, c2, c3. auto.
  - intros p Hp. apply list_elem_of_lookup in Hp as (i & Hp).
    apply (lookup_hands _ _ i) in Hhands. rewrite Hp in Hhands.
    destruct (dealt !! i) as [q|] eqn:Hq; [| discriminate].
    injection Hhands as ->.
    assert (Hi : (i < length (players s0))%nat).
    { apply lookup_lt_Some in Hq. unfold dealt in Hq.
      by rewrite length_dealtPlayers in Hq. }
    destruct (lookup_lt_is_Some_2 _ _ Hi) as (p0 & Hp0).
    destruct (dealtPlayers_seat _ (dealerIndex s0) deck i p0 Hdeck Hn Hp0)
      as (j & c1 & c2 & c3 & _ & _ & _ & _ & _ & Hd).
    fold dealt in Hd. rewrite Hd in Hq. by injection Hq as <-.
  - intros Hact i p Hp.
    assert (Hinv : turnInv (run s1 acts)).
    { apply run_turnInv; [| exact Hact]. intros Hact1.
      destruct (Hactive Hact1) as (Hps & _).
      by apply (dealt_turnInv s0 s1). }
    destruct Hinv as [Hne' Hh]. destruct (Hh i p Hp) as [Hl Hd].
    split; [eapply Hne', list_elem_of_lookup_2, Hp | auto].
Qed.

Lemma table_c_out_dealt :
  startHand lobby_c_out = Some table_c_out
  ∧ phase table_c_out = PLAYING
  ∧ map (fun p => (p_id p, eliminated p, length (hand p))) (players table_c_out)
    = [("a", false, 3%nat); ("b", false, 6%nat); ("c", true, 0%nat)].
Proof. repeat split; vm_compute; reflexivity. Qed.

(** The stated property fails twice over: with an eliminated seat [startHand] deals
    6 cards to seat "b"; and on a full table the acting player holds 4 cards
    after its draw. *)
Lemma three_cards_claim_fails :
  ¬ three_cards_claim lobby_c_out []
  ∧ ¬ three_cards_claim lobby3 [("b", DRAW_STOCK)].
Proof.
  split; intros H.
  - destruct (H table_c_out) as [H3 _]; [vm_compute; reflexivity|].
    specialize (H3 (default (seat "b" "Bob" CPU 2) (players table_c_out !! 1%nat))).
    vm_compute in H3.
    specialize (H3 (list_elem_of_further _ _ _ (list_elem_of_here _ _)) eq_refl).
    discriminate.
  - destruct (H table3) as [_ H3]; [vm_compute; reflexivity|].
    specialize (H3 (or_introl eq_refl) bob_drew).
    vm_compute in H3.
    specialize (H3 (list_elem_of_further _ _ _ (list_elem_of_here _ _)) eq_refl).
    discriminate.
Qed.

Lemma three_cards_each_witness :
  let n := length (players lobby3) in
  let deck := reverse (makeDeck (seed lobby3)) in
  ∃ s1,
    startHand lobby3 = Some s1
    ∧ (∀ j, (j < n)%nat →
         ∃ p c1 c2 c3,
           players s1 !! ((dealerIndex lobby3 + 1 + j) mod n)%nat = Some p
           ∧ hand p = [c1; c2; c3]
           ∧ deck !! j = Some c1
           ∧ deck !! (n + j)%nat = Some c2
           ∧ deck !! (2 * n + j)%nat = Some c3)
    ∧ (∀ p, p ∈ players s1 → length (hand p) = 3%nat)
    ∧ (activePhase (phase (run s1 finalTurns_script)) →
       ∀ i p, players (run s1 finalTurns_script) !! i = Some p →
              eliminated p = false
              ∧ length (hand p) = (if isDrew p then 4 else 3)%nat
              ∧ (isDrew p = true → i = turnIndex (run s1 finalTurns_script))).
Proof.
  apply (three_cards_each lobby3 finalTurns_script).
  - unfold noneEliminated.
    apply (proj1 (Forall_forall (fun p => eliminated p = false) _)).
    apply (bool_decide_unpack
             (Forall (fun p => eliminated p = false) (players lobby3))).
    vm_compute. exact I.
  - apply (proj1 (Forall_forall (fun p => isDrew p = false) _)).
    apply (bool_decide_unpack
             (Forall (fun p => isDrew p = false) (players lobby3))).
    vm_compute. exact I.
  - vm_compute. lia.
Defined.
